(** * Real-Debrid MCP server (OAuth device flow): a shallow embedding of
    [src/index.py] and the properties of its session handling.

    The Python module keeps one process-wide dictionary [user_tokens] from
    session ids to credential dictionaries, and six [async] tools that talk
    to the Real-Debrid HTTP API.  The embedding below keeps

    - Python values that come out of [response.json()] as a [json] tree;
    - the dictionaries stored in [user_tokens] as objects in a heap, because
      the handlers keep a reference to them across an [await] and mutate
      them in place;
    - every effect (HTTP call, [time.time()], [os.urandom], access to
      [user_tokens]) as a node of a [task] tree, run against an explicit
      environment, sequentially or interleaved at the [await]s.

    A Python [str] is kept as the bytes of its UTF-8 encoding.  A Python
    [float] is a binary64 number, with the operations the standard library
    specifies for it ([SpecFloat]).  A JSON number is an integer: fractional
    numbers in an answer are not represented. *)

From Stdlib Require Import ZArith String Ascii List Bool Lia.
From Stdlib Require Import SpecFloat.
From Stdlib.Strings Require Import Byte.
From stdpp Require Import base option list gmap strings pretty.

Open Scope Z_scope.
Open Scope string_scope.
Open Scope list_scope.

Set Warnings "-register-all".

(** ** Values *)

(** A Python [float]: IEEE 754 binary64, in the canonical form that
    [binary_normalize] produces.  [dyadic m e] is the float nearest to
    [m * 2^e]. *)
Definition float : Type := spec_float.

Definition dyadic (m e : Z) : float := binary_normalize 53 1024 m e false.

Definition float_of_Z (z : Z) : float := dyadic z 0.

(** [x >= y] on floats; false when either is not a number. *)
Definition float_ge (x y : float) : bool :=
  match SFcompare x y with
  | Some (Gt | Eq) => true
  | _ => false
  end.

(** What [response.json()] yields.  A number written without fraction and
    exponent is an [int], any other number a [float].  An object is kept as
    the list of its items; [assoc] reads it as the dictionary Python
    builds. *)
Inductive json : Type :=
| JNull
| JBool (b : bool)
| JInt (z : Z)
| JFloat (f : float)
| JStr (s : string)
| JArr (items : list json)
| JObj (fields : list (string * json)).

Fixpoint assoc {V : Type} (k : string) (fields : list (string * V)) : option V :=
  match fields with
  | [] => None
  | (k', v) :: rest => if String.eqb k k' then Some v else assoc k rest
  end.

(** An f-string, kept as its parts: literal text and interpolated values.
    [str()] of [None], a boolean, an integer or a string is modelled
    ([py_str]); [str()] of a float, a list or a dictionary goes through
    [repr] and is left unrendered. *)
Inductive part : Type :=
| Lit (s : string)
| Val (v : json).

Definition fstr := list part.

Definition py_str (v : json) : option string :=
  match v with
  | JNull => Some "None"
  | JBool true => Some "True"
  | JBool false => Some "False"
  | JInt z => Some (pretty z)
  | JStr s => Some s
  | JFloat _ | JArr _ | JObj _ => None
  end.

Fixpoint render (f : fstr) : option string :=
  match f with
  | [] => Some ""
  | Lit s :: rest => option_map (String.append s) (render rest)
  | Val v :: rest =>
      match py_str v, render rest with
      | Some s, Some r => Some (s +:+ r)
      | _, _ => None
      end
  end.

(** The exceptions the module can raise or let through. *)
Inductive exn : Type :=
| ToolError (msg : string)       (* fastmcp.exceptions.ToolError *)
| Exception (msg : fstr)         (* the bare [Exception] of rd_api_request *)
| KeyError (key : string)        (* d[key] on a dictionary without key *)
| TypeError                      (* subscript or [+] on a value of the wrong type *)
| OverflowError                  (* an [int] too large for a float, [int] of an infinity *)
| ValueError                     (* [int] of a float that is not a number *)
| AttributeError                 (* [.get] on a value that is not a dictionary *)
| JSONDecodeError                (* response.json() on a body that is not JSON *)
| TransportError.                (* httpx could not complete the exchange *)

(** [data[key]] *)
Definition getitem (data : json) (key : string) : exn + json :=
  match data with
  | JObj fields =>
      match assoc key fields with
      | Some v => inr v
      | None => inl (KeyError key)
      end
  | _ => inl TypeError
  end.

(** [data.get(key, default)] *)
Definition get_default (data : json) (key : string) (default : json) : exn + json :=
  match data with
  | JObj fields =>
      match assoc key fields with
      | Some v => inr v
      | None => inr default
      end
  | _ => inl AttributeError
  end.

(** ** HTTP exchanges *)

(** The body of a form-encoded request: the dictionary handed to
    [urlencode], in insertion order. *)
Definition form := list (string * json).

Record request : Type := Request {
  req_method : string;
  req_url : string;
  req_headers : list (string * fstr);
  req_content : option form
}.

(** What comes back from [httpx]: a response with its status code and the
    result of [response.json()] ([None] when the body is not JSON), or no
    response at all (connection failure, timeout). *)
Inductive http_result : Type :=
| HttpResponse (status_code : Z) (body : option json)
| HttpError.

(** ** The token store *)

(** The dictionary [oauth_check] builds for a session.  [expiresAt] is
    always the float [time.time() + expires_in]; the other four values are
    whatever the OAuth server sent. *)
Record session : Type := Session {
  accessToken : json;
  refreshToken : json;
  expiresAt : float;
  clientId : json;
  clientSecret : json
}.

Definition set_accessToken (v : json) (s : session) : session :=
  Session v (refreshToken s) (expiresAt s) (clientId s) (clientSecret s).
Definition set_refreshToken (v : json) (s : session) : session :=
  Session (accessToken s) v (expiresAt s) (clientId s) (clientSecret s).
Definition set_expiresAt (t : float) (s : session) : session :=
  Session (accessToken s) (refreshToken s) t (clientId s) (clientSecret s).

(** A reference to a session dictionary. *)
Definition ref := nat.

(** [user_tokens] maps a session id to a reference; the dictionaries
    themselves live in [heap], so that two handlers that looked up the same
    session see each other's assignments. *)
Record store : Type := Store {
  heap : list session;
  user_tokens : gmap string ref
}.

(** The credential record the store holds for a session id. *)
Definition record_of (st : store) (session_id : string) : option session :=
  match user_tokens st !! session_id with
  | Some r => heap st !! r
  | None => None
  end.

(** Every reference in [user_tokens] points to a dictionary. *)
Definition store_wf (st : store) : Prop :=
  forall session_id r, user_tokens st !! session_id = Some r ->
    (r < length (heap st))%nat.

(** [len(user_tokens)], as the health check reports it. *)
Definition activeSessions (st : store) : nat := size (user_tokens st).

(** ** Tasks *)

(** A coroutine of the module.  [Await] is the only point where the event
    loop can run another handler; all other nodes execute without
    interruption. *)
Inductive task (A : Type) : Type :=
| Ret (a : A)
| Raise (e : exn)
| Await (r : request) (k : http_result -> task A)
| TimeTime (k : float -> task A)                   (* time.time() *)
| Urandom (n : nat) (k : list byte -> task A)      (* os.urandom(n) *)
| TokensGet (session_id : string) (k : option ref -> task A)
                                                   (* user_tokens.get(session_id) *)
| TokensSet (session_id : string) (r : ref) (k : task A)
                                                   (* user_tokens[session_id] = r *)
| NewDict (s : session) (k : ref -> task A)        (* a dictionary display *)
| Fetch (r : ref) (k : session -> task A)           (* reading r[...] *)
| Assign (r : ref) (f : session -> session) (k : task A).
                                                   (* r[field] = value *)

Arguments Ret {A} a.
Arguments Raise {A} e.
Arguments Await {A} r k.
Arguments TimeTime {A} k.
Arguments Urandom {A} n k.
Arguments TokensGet {A} session_id k.
Arguments TokensSet {A} session_id r k.
Arguments NewDict {A} s k.
Arguments Fetch {A} r k.
Arguments Assign {A} r f k.

Fixpoint bind {A B : Type} (m : task A) (f : A -> task B) : task B :=
  match m with
  | Ret a => f a
  | Raise e => Raise e
  | Await r k => Await r (fun x => bind (k x) f)
  | TimeTime k => TimeTime (fun x => bind (k x) f)
  | Urandom n k => Urandom n (fun x => bind (k x) f)
  | TokensGet sid k => TokensGet sid (fun x => bind (k x) f)
  | TokensSet sid r k => TokensSet sid r (bind k f)
  | NewDict s k => NewDict s (fun x => bind (k x) f)
  | Fetch r k => Fetch r (fun x => bind (k x) f)
  | Assign r g k => Assign r g (bind k f)
  end.

Notation "'do' x <- m ; k" := (bind m (fun x => k))
  (at level 10, x name, m at level 100, k at level 200, only parsing).

(** An expression that may raise. *)
Definition try {A : Type} (x : exn + A) : task A :=
  match x with
  | inl e => Raise e
  | inr a => Ret a
  end.

(** [response.json()] *)
Definition response_json (body : option json) : task json :=
  match body with
  | Some data => Ret data
  | None => Raise JSONDecodeError
  end.

(** ** Running tasks *)

(** The world outside the process: the n-th reading of the clock, the n-th
    byte of the random source, and the answer to the n-th request sent. *)
Record env : Type := Env {
  clock : nat -> float;
  entropy : nat -> byte;
  server : nat -> request -> http_result
}.

Record world : Type := World {
  st : store;
  ticks : nat;              (* clock readings taken so far *)
  drawn : nat;              (* random bytes drawn so far *)
  sent : list request       (* requests sent so far, oldest first *)
}.

Inductive outcome (A : Type) : Type :=
| Returned (a : A)
| Raised (e : exn)
| Wild.     (* a reference to no dictionary: cannot happen from [store_wf] *)

Arguments Returned {A} a.
Arguments Raised {A} e.
Arguments Wild {A}.

Definition tick (w : world) : world :=
  World (st w) (S (ticks w)) (drawn w) (sent w).
Definition draw (n : nat) (w : world) : world :=
  World (st w) (ticks w) (n + drawn w) (sent w).
Definition send (r : request) (w : world) : world :=
  World (st w) (ticks w) (drawn w) (sent w ++ [r]).
Definition with_store (s : store) (w : world) : world :=
  World s (ticks w) (drawn w) (sent w).

Definition urandom (e : env) (n : nat) (w : world) : list byte :=
  map (fun i => entropy e (i + drawn w)%nat) (seq 0 n).

(** One handler run to completion with nothing else in between: each
    request is answered before the next node executes. *)
Fixpoint run {A : Type} (e : env) (t : task A) (w : world) : outcome A * world :=
  match t with
  | Ret a => (Returned a, w)
  | Raise x => (Raised x, w)
  | Await r k => run e (k (server e (length (sent w)) r)) (send r w)
  | TimeTime k => run e (k (clock e (ticks w))) (tick w)
  | Urandom n k => run e (k (urandom e n w)) (draw n w)
  | TokensGet sid k => run e (k (user_tokens (st w) !! sid)) w
  | TokensSet sid r k =>
      run e k (with_store (Store (heap (st w)) (<[sid := r]> (user_tokens (st w)))) w)
  | NewDict s k =>
      run e (k (length (heap (st w))))
        (with_store (Store (heap (st w) ++ [s]) (user_tokens (st w))) w)
  | Fetch r k =>
      match heap (st w) !! r with
      | Some s => run e (k s) w
      | None => (Wild, w)
      end
  | Assign r f k =>
      match heap (st w) !! r with
      | Some s =>
          run e k (with_store (Store (<[r := f s]> (heap (st w))) (user_tokens (st w))) w)
      | None => (Wild, w)
      end
  end.

(** ** The module *)

Definition RD_API_BASE : string := "https://api.real-debrid.com/rest/1.0".
Definition RD_OAUTH_BASE : string := "https://api.real-debrid.com/oauth/v2".
Definition DEFAULT_CLIENT_ID : string := "X245A4XAIBGVM".

Definition FORM_URLENCODED : fstr := [Lit "application/x-www-form-urlencoded"].
Definition DEVICE_GRANT : string := "http://oauth.net/grant_type/device/1.0".

(** [urlencode(body) if body else None]: an empty dictionary is falsy. *)
Definition content_of (body : option form) : option form :=
  match body with
  | Some (item :: rest) => Some (item :: rest)
  | Some [] => None
  | None => None
  end.

(** The request [rd_api_request] builds. *)
Definition api_call (endpoint : string) (access_token : json) (method : string)
    (body : option form) : request :=
  let url := RD_API_BASE +:+ endpoint in
  let headers := [("Authorization", [Lit "Bearer "; Val access_token])] in
  if String.eqb method "GET" then Request "GET" url headers None
  else Request method url (headers ++ [("Content-Type", FORM_URLENCODED)])
         (content_of body).

Definition api_error (error_msg error_code : json) : exn :=
  Exception [Lit "Real-Debrid API Error: "; Val error_msg;
             Lit " (Code: "; Val error_code; Lit ")"].

(** How [rd_api_request] maps the response. *)
Definition api_result (res : http_result) : task json :=
  match res with
  | HttpError => Raise TransportError
  | HttpResponse status_code body =>
      if (status_code =? 204)%Z then Ret (JObj [("success", JBool true)])
      else
        do data <- response_json body;
        if (400 <=? status_code)%Z then
          do error_msg <- try (get_default data "error" (JStr "Unknown error"));
          do error_code <- try (get_default data "error_code" (JStr "N/A"));
          Raise (api_error error_msg error_code)
        else Ret data
  end.

Definition rd_api_request (endpoint : string) (access_token : json)
    (method : string) (body : option form) : task json :=
  Await (api_call endpoint access_token method body) api_result.

Record credentials : Type := Credentials {
  cred_clientId : json;
  cred_clientSecret : json
}.

Record tokens : Type := Tokens {
  tok_accessToken : json;
  tok_refreshToken : json;
  tok_expiresIn : json
}.

Definition credentials_call (device_code : string) : request :=
  Request "GET"
    (RD_OAUTH_BASE +:+ "/device/credentials?client_id=" +:+ DEFAULT_CLIENT_ID
       +:+ "&code=" +:+ device_code)
    [] None.

Definition get_device_credentials (device_code : string) : task (option credentials) :=
  Await (credentials_call device_code) (fun res =>
    match res with
    | HttpError => Raise TransportError
    | HttpResponse status_code body =>
        if negb (status_code =? 200)%Z then Ret None
        else
          do data <- response_json body;
          do client_id <- try (getitem data "client_id");
          do client_secret <- try (getitem data "client_secret");
          Ret (Some (Credentials client_id client_secret))
    end).

(** The request both token functions post to [/token]. *)
Definition token_call (client_id client_secret code : json) : request :=
  Request "POST" (RD_OAUTH_BASE +:+ "/token")
    [("Content-Type", FORM_URLENCODED)]
    (Some [("client_id", client_id); ("client_secret", client_secret);
           ("code", code); ("grant_type", JStr DEVICE_GRANT)]).

Definition token_payload (data : json) : task tokens :=
  do access_token <- try (getitem data "access_token");
  do refresh_token <- try (getitem data "refresh_token");
  do expires_in <- try (getitem data "expires_in");
  Ret (Tokens access_token refresh_token expires_in).

Definition get_access_token (client_id client_secret : json) (device_code : string)
    : task (option tokens) :=
  Await (token_call client_id client_secret (JStr device_code)) (fun res =>
    match res with
    | HttpError => Raise TransportError
    | HttpResponse status_code body =>
        if negb (status_code =? 200)%Z then Ret None
        else
          do data <- response_json body;
          do t <- token_payload data;
          Ret (Some t)
    end).

Definition refresh_access_token (client_id client_secret refresh_token : json)
    : task tokens :=
  Await (token_call client_id client_secret refresh_token) (fun res =>
    match res with
    | HttpError => Raise TransportError
    | HttpResponse _ body =>
        do data <- response_json body;
        token_payload data
    end).

(** *** Session ids *)

(** [int(x)] on a float: truncation towards zero; an infinity and a float
    that is not a number raise. *)
Definition py_int (x : float) : exn + Z :=
  match x with
  | S754_zero _ => inr 0
  | S754_finite s m e => inr (cond_Zopp s (Z.shiftl (Z.pos m) e))
  | S754_infinity _ => inl OverflowError
  | S754_nan => inl ValueError
  end.

Definition hex_digit (n : N) : ascii :=
  match n with
  | 0 => "0" | 1 => "1" | 2 => "2" | 3 => "3" | 4 => "4" | 5 => "5"
  | 6 => "6" | 7 => "7" | 8 => "8" | 9 => "9" | 10 => "a" | 11 => "b"
  | 12 => "c" | 13 => "d" | 14 => "e" | _ => "f"
  end%char%N.

Definition byte_hex (b : byte) : string :=
  let n := Byte.to_N b in
  String (hex_digit (n / 16)) (String (hex_digit (n mod 16)) EmptyString).

(** [bytes.hex()] *)
Fixpoint bytes_hex (bs : list byte) : string :=
  match bs with
  | [] => ""
  | b :: rest => byte_hex b +:+ bytes_hex rest
  end.

(** [f"session_{int(time.time())}_{os.urandom(4).hex()}"], with
    [seconds] the value of [int(time.time())]. *)
Definition make_session_id (seconds : Z) (rnd : list byte) : string :=
  "session_" +:+ pretty seconds +:+ "_" +:+ bytes_hex rnd.

(** The conversion of an [int] operand to a float: the nearest float,
    ties to even, or [OverflowError] when that is beyond the largest
    float. *)
Definition int_to_float (z : Z) : exn + float :=
  match float_of_Z z with
  | S754_infinity _ => inl OverflowError
  | f => inr f
  end.

(** [x + v] for a float [x].  An [int] (a [bool] is one in Python) is
    converted to a float first; the sum of the two floats is rounded to the
    nearest float; a value that is not a number raises [TypeError]. *)
Definition float_add (x : float) (v : json) : exn + float :=
  match v with
  | JInt z =>
      match int_to_float z with
      | inr f => inr (SFadd 53 1024 x f)
      | inl err => inl err
      end
  | JBool b => inr (SFadd 53 1024 x (float_of_Z (if b then 1 else 0)))
  | JFloat f => inr (SFadd 53 1024 x f)
  | _ => inl TypeError
  end.

(** *** Tools *)

(** What a tool returns: the text [json.dumps(v, indent=2)] of a value. *)
Inductive text : Type :=
| Dumps (v : json).

Definition PENDING_NOT_AUTHORIZED : json :=
  JObj [("status", JStr "pending");
        ("message", JStr "User has not authorized yet. Please complete authorization at real-debrid.com/device")].

Definition PENDING_IN_PROGRESS : json :=
  JObj [("status", JStr "pending");
        ("message", JStr "Authorization in progress. Please try again in a few seconds.")].

Definition authorized (session_id : string) (expires_in : json) : json :=
  JObj [("status", JStr "authorized");
        ("session_id", JStr session_id);
        ("message", JStr "Successfully authorized! Use this session_id for all other tools.");
        ("expires_in", expires_in)].

Definition oauth_check (device_code : string) : task text :=
  do credentials <- get_device_credentials device_code;
  match credentials with
  | None => Ret (Dumps PENDING_NOT_AUTHORIZED)
  | Some credentials =>
      do tokens <- get_access_token (cred_clientId credentials)
                     (cred_clientSecret credentials) device_code;
      match tokens with
      | None => Ret (Dumps PENDING_IN_PROGRESS)
      | Some tokens =>
          TimeTime (fun now =>
          do seconds <- try (py_int now);
          Urandom 4 (fun rnd =>
          let session_id := make_session_id seconds rnd in
          TimeTime (fun now' =>
          do expires_at <- try (float_add now' (tok_expiresIn tokens));
          NewDict (Session (tok_accessToken tokens) (tok_refreshToken tokens)
                     expires_at (cred_clientId credentials)
                     (cred_clientSecret credentials)) (fun r =>
          TokensSet session_id r (
          Ret (Dumps (authorized session_id (tok_expiresIn tokens))))))))
      end
  end.

Definition INVALID_SESSION_LONG : string :=
  "Invalid session_id. Please authenticate first using oauth_start and oauth_check.".
Definition INVALID_SESSION : string :=
  "Invalid session_id. Please authenticate first.".

(** The body of [if time.time() >= session["expiresAt"]:] in
    [get_user_info]; [session_ref] is the reference the lookup returned. *)
Definition refresh_session (session_id : string) (session_ref : ref) (d : session)
    : task unit :=
  do new_tokens <- refresh_access_token (clientId d) (clientSecret d) (refreshToken d);
  Assign session_ref (set_accessToken (tok_accessToken new_tokens)) (
  Assign session_ref (set_refreshToken (tok_refreshToken new_tokens)) (
  TimeTime (fun now' =>
  do expires_at <- try (float_add now' (tok_expiresIn new_tokens));
  Assign session_ref (set_expiresAt expires_at) (
  TokensSet session_id session_ref (
  Ret tt))))).

(** A stored session dictionary is never empty, so [if not session] is
    taken exactly when the lookup returned [None]. *)
Definition get_user_info (session_id : string) : task text :=
  TokensGet session_id (fun found =>
  match found with
  | None => Raise (ToolError INVALID_SESSION_LONG)
  | Some session_ref =>
      do _ <- TimeTime (fun now =>
              Fetch session_ref (fun d =>
              if float_ge now (expiresAt d)
              then refresh_session session_id session_ref d
              else Ret tt));
      Fetch session_ref (fun d =>
      do data <- rd_api_request "/user" (accessToken d) "GET" None;
      Ret (Dumps data))
  end).

(** Truthiness of an optional string argument: [None] and [""] are falsy. *)
Definition truthy (arg : option string) : option string :=
  match arg with
  | Some (String c rest) => Some (String c rest)
  | Some EmptyString => None
  | None => None
  end.

Definition unrestrict_body (link : string) (password : option string) : form :=
  match truthy password with
  | Some p => [("link", JStr link); ("password", JStr p)]
  | None => [("link", JStr link)]
  end.

Definition unrestrict_link (session_id link : string) (password : option string)
    : task text :=
  TokensGet session_id (fun found =>
  match found with
  | None => Raise (ToolError INVALID_SESSION)
  | Some session_ref =>
      let body := unrestrict_body link password in
      Fetch session_ref (fun d =>
      do data <- rd_api_request "/unrestrict/link" (accessToken d) "POST" (Some body);
      Ret (Dumps data))
  end).

Definition torrents_endpoint (filter : option string) : string :=
  match truthy filter with
  | Some f => "/torrents" +:+ "?filter=" +:+ f
  | None => "/torrents"
  end.

Definition list_torrents (session_id : string) (filter : option string) : task text :=
  TokensGet session_id (fun found =>
  match found with
  | None => Raise (ToolError INVALID_SESSION)
  | Some session_ref =>
      let endpoint := torrents_endpoint filter in
      Fetch session_ref (fun d =>
      do data <- rd_api_request endpoint (accessToken d) "GET" None;
      Ret (Dumps data))
  end).

Definition add_magnet (session_id magnet : string) : task text :=
  TokensGet session_id (fun found =>
  match found with
  | None => Raise (ToolError INVALID_SESSION)
  | Some session_ref =>
      Fetch session_ref (fun d =>
      do data <- rd_api_request "/torrents/addMagnet" (accessToken d) "POST"
                   (Some [("magnet", JStr magnet)]);
      Ret (Dumps data))
  end).

(** *** The bytes of a form on the wire *)

(** The characters [quote_plus] leaves alone. *)
Definition is_unreserved (c : ascii) : bool :=
  let n := N_of_ascii c in
  ((65 <=? n) && (n <=? 90) || (97 <=? n) && (n <=? 122) || (48 <=? n) && (n <=? 57)
   || (n =? 95) || (n =? 46) || (n =? 45) || (n =? 126))%N.

Definition upper_hex_digit (n : N) : ascii :=
  match n with
  | 0 => "0" | 1 => "1" | 2 => "2" | 3 => "3" | 4 => "4" | 5 => "5"
  | 6 => "6" | 7 => "7" | 8 => "8" | 9 => "9" | 10 => "A" | 11 => "B"
  | 12 => "C" | 13 => "D" | 14 => "E" | _ => "F"
  end%char%N.

(** [urllib.parse.quote_plus] *)
Fixpoint quote_plus (s : string) : string :=
  match s with
  | EmptyString => EmptyString
  | String c rest =>
      if is_unreserved c then String c (quote_plus rest)
      else if Ascii.eqb c " " then String "+" (quote_plus rest)
      else
        let n := N_of_ascii c in
        String "%" (String (upper_hex_digit (n / 16))
                      (String (upper_hex_digit (n mod 16)) (quote_plus rest)))
  end.

(** [urllib.parse.urlencode] of a dictionary whose values are scalars. *)
Fixpoint urlencode (body : form) : option string :=
  match body with
  | [] => Some ""
  | (k, v) :: rest =>
      match py_str v, urlencode rest with
      | Some s, Some tail =>
          Some (quote_plus k +:+ "=" +:+ quote_plus s
                +:+ match rest with [] => "" | _ :: _ => "&" +:+ tail end)
      | _, _ => None
      end
  end.

(** ** Handlers interleaved by the event loop *)

(** A handler is not yet started, suspended at an [await] (its request,
    numbered [n], is on the wire), or finished. *)
Inductive thread (A : Type) : Type :=
| Ready (t : task A)
| Parked (n : nat) (r : request) (k : http_result -> task A)
| Done (o : outcome A).

Arguments Ready {A} t.
Arguments Parked {A} n r k.
Arguments Done {A} o.

(** Run a task up to its next [await]. *)
Fixpoint advance {A : Type} (e : env) (t : task A) (w : world) : thread A * world :=
  match t with
  | Ret a => (Done (Returned a), w)
  | Raise x => (Done (Raised x), w)
  | Await r k => (Parked (length (sent w)) r k, send r w)
  | TimeTime k => advance e (k (clock e (ticks w))) (tick w)
  | Urandom n k => advance e (k (urandom e n w)) (draw n w)
  | TokensGet sid k => advance e (k (user_tokens (st w) !! sid)) w
  | TokensSet sid r k =>
      advance e k (with_store (Store (heap (st w)) (<[sid := r]> (user_tokens (st w)))) w)
  | NewDict s k =>
      advance e (k (length (heap (st w))))
        (with_store (Store (heap (st w) ++ [s]) (user_tokens (st w))) w)
  | Fetch r k =>
      match heap (st w) !! r with
      | Some s => advance e (k s) w
      | None => (Done Wild, w)
      end
  | Assign r f k =>
      match heap (st w) !! r with
      | Some s =>
          advance e k (with_store (Store (<[r := f s]> (heap (st w))) (user_tokens (st w))) w)
      | None => (Done Wild, w)
      end
  end.

(** The event loop resumes a handler: it starts it, or hands it the
    response to the request it is waiting on. *)
Definition resume {A : Type} (e : env) (th : thread A) (w : world) : thread A * world :=
  match th with
  | Ready t => advance e t w
  | Parked n r k => advance e (k (server e n r)) w
  | Done o => (Done o, w)
  end.

(** One turn of the event loop: handler [i] runs to its next [await]. *)
Definition turn {A : Type} (e : env) (i : nat) (pw : list (thread A) * world)
    : list (thread A) * world :=
  match fst pw !! i with
  | Some th => let (th', w') := resume e th (snd pw) in (<[i := th']> (fst pw), w')
  | None => pw
  end.

(** The handlers resumed in the order the schedule gives. *)
Definition interleave {A : Type} (e : env) (schedule : list nat)
    (pw : list (thread A) * world) : list (thread A) * world :=
  fold_left (fun pw i => turn e i pw) schedule pw.

(** The handlers run one after the other, each to completion. *)
Fixpoint run_each {A : Type} (e : env) (ts : list (task A)) (w : world)
    : list (outcome A) * world :=
  match ts with
  | [] => ([], w)
  | t :: rest =>
      let (o, w1) := run e t w in
      let (os, w2) := run_each e rest w1 in
      (o :: os, w2)
  end.

(** ** Observations on a run *)

Definition map_outcome {A B : Type} (f : A -> B) (o : outcome A) : outcome B :=
  match o with
  | Returned a => Returned (f a)
  | Raised x => Raised x
  | Wild => Wild
  end.

(** The requests among [rs] that refresh a token, that is, the posts to the
    token endpoint. *)
Definition is_token_call (r : request) : bool :=
  String.eqb (req_url r) (RD_OAUTH_BASE +:+ "/token").

Definition refresh_calls (rs : list request) : nat :=
  length (List.filter is_token_call rs).

(** [needle in hay] on strings. *)
Fixpoint is_infix (needle hay : string) : bool :=
  String.prefix needle hay ||
  match hay with
  | EmptyString => false
  | String _ rest => is_infix needle rest
  end.

(** ** Concrete scenarios *)

Definition EMPTY_STORE : store := Store [] ∅.
Definition START : world := World EMPTY_STORE 0 0 [].

Definition token_body (access refresh : string) (expires_in : json) : option json :=
  Some (JObj [("access_token", JStr access); ("refresh_token", JStr refresh);
              ("expires_in", expires_in); ("token_type", JStr "Bearer")]).

Definition credentials_body (id secret : string) : option json :=
  Some (JObj [("client_id", JStr id); ("client_secret", JStr secret)]).

(** Two users complete the device flow within the same second (the clock
    reads 100.25, 100.5, 100.75, 100.875), and the random source repeats
    itself. *)
Definition SAME_SECOND : env :=
  Env (fun n => match n with
                | 0%nat => dyadic 401 (-2) | 1%nat => dyadic 201 (-1)
                | 2%nat => dyadic 403 (-2) | _ => dyadic 807 (-3)
                end)
      (fun _ => x00)
      (fun n _ => match n with
                  | 0%nat => HttpResponse 200 (credentials_body "idA" "secretA")
                  | 1%nat => HttpResponse 200 (token_body "A1" "R1" (JInt 3600))
                  | 2%nat => HttpResponse 200 (credentials_body "idB" "secretB")
                  | _ => HttpResponse 200 (token_body "B1" "S1" (JInt 3600))
                  end).

(** One stored session, whose token expires at time 1000. *)
Definition ALICE : session :=
  Session (JStr "T1") (JStr "R1") (float_of_Z 1000) (JStr "idA") (JStr "secretA").

Definition ALICE_ID : string := "session_1_00000000".

Definition ONE_SESSION : world :=
  World (Store [ALICE] {[ ALICE_ID := 0%nat ]}) 0 0 [].

Definition USER_PAYLOAD : option json :=
  Some (JObj [("id", JInt 42); ("username", JStr "alice")]).

(** The clock reads 500, 501, ...: the token is still good. *)
Definition EARLY : env :=
  Env (fun n => float_of_Z (500 + Z.of_nat n)) (fun _ => x00)
      (fun _ _ => HttpResponse 200 USER_PAYLOAD).

(** The clock reads 2000, 2001, ...: the token has expired.  The token
    endpoint answers the first request with the given body, and the API
    answers what follows. *)
Definition LATE (refresh_body : option json) : env :=
  Env (fun n => float_of_Z (2000 + Z.of_nat n)) (fun _ => x00)
      (fun n _ => match n with
                  | 0%nat => HttpResponse 200 refresh_body
                  | _ => HttpResponse 200 USER_PAYLOAD
                  end).

(** The API refuses a link that needs a password. *)
Definition PASSWORD_PROTECTED : option json :=
  Some (JObj [("error", JStr "password_protected"); ("error_code", JInt 19)]).

Definition REFUSING : env :=
  Env (fun n => float_of_Z (500 + Z.of_nat n)) (fun _ => x00)
      (fun _ _ => HttpResponse 403 PASSWORD_PROTECTED).

(** The token endpoint rejects the refresh token. *)
Definition BAD_TOKEN : option json :=
  Some (JObj [("error", JStr "bad_token"); ("error_code", JInt 8)]).

Definition REJECTING : env :=
  Env (fun n => float_of_Z (2000 + Z.of_nat n)) (fun _ => x00)
      (fun _ _ => HttpResponse 401 BAD_TOKEN).

(** The token has expired and the token endpoint accepts two refresh calls
    in a row. *)
Definition RACE : env :=
  Env (fun n => float_of_Z (2000 + Z.of_nat n)) (fun _ => x00)
      (fun n _ => match n with
                  | 0%nat => HttpResponse 200 (token_body "T2" "R2" (JInt 3600))
                  | 1%nat => HttpResponse 200 (token_body "T3" "R3" (JInt 3600))
                  | _ => HttpResponse 200 USER_PAYLOAD
                  end).

(** What each handler has returned or raised, if all have finished. *)
Fixpoint outcomes {A : Type} (pool : list (thread A)) : option (list (outcome A)) :=
  match pool with
  | [] => Some []
  | Done o :: rest => option_map (cons o) (outcomes rest)
  | _ :: _ => None
  end.

(** ** The rest of the module *)

(** *** Starting the device flow *)

(** The dictionary [initiate_device_auth] returns. *)
Record device_auth : Type := DeviceAuth {
  auth_deviceCode : json;
  auth_userCode : json;
  auth_verificationUrl : json;
  auth_expiresIn : json;
  auth_interval : json
}.

Definition device_code_call : request :=
  Request "GET"
    (RD_OAUTH_BASE +:+ "/device/code?client_id=" +:+ DEFAULT_CLIENT_ID
       +:+ "&new_credentials=yes")
    [] None.

Definition initiate_device_auth : task device_auth :=
  Await device_code_call (fun res =>
    match res with
    | HttpError => Raise TransportError
    | HttpResponse _ body =>
        do data <- response_json body;
        do device_code <- try (getitem data "device_code");
        do user_code <- try (getitem data "user_code");
        do verification_url <- try (getitem data "verification_url");
        do expires_in <- try (getitem data "expires_in");
        do interval <- try (getitem data "interval");
        Ret (DeviceAuth device_code user_code verification_url expires_in interval)
    end).

(** The dictionary [oauth_start] dumps.  [message] is an f-string over two
    values of the answer and is kept in parts. *)
Record start_result : Type := StartResult {
  start_device_code : json;
  start_user_code : json;
  start_verification_url : json;
  start_expires_in : json;
  start_message : fstr;
  start_instructions : string
}.

Definition START_INSTRUCTIONS : string :=
  "Then use oauth_check with the device_code to complete authentication".

(** The tool returns [json.dumps(result, indent=2)] of this dictionary. *)
Definition oauth_start : task start_result :=
  do auth_data <- initiate_device_auth;
  Ret (StartResult (auth_deviceCode auth_data) (auth_userCode auth_data)
         (auth_verificationUrl auth_data) (auth_expiresIn auth_data)
         [Lit "Go to "; Val (auth_verificationUrl auth_data);
          Lit " and enter code: "; Val (auth_userCode auth_data)]
         START_INSTRUCTIONS).

(** *** The six tools as one interface *)

Inductive tool_call : Type :=
| CallOauthStart
| CallOauthCheck (device_code : string)
| CallGetUserInfo (session_id : string)
| CallUnrestrictLink (session_id link : string) (password : option string)
| CallListTorrents (session_id : string) (filter : option string)
| CallAddMagnet (session_id magnet : string).

(** The handler the server starts for a call. *)
Definition handle (c : tool_call) : task (start_result + text) :=
  match c with
  | CallOauthStart => do r <- oauth_start; Ret (inl r)
  | CallOauthCheck device_code => do r <- oauth_check device_code; Ret (inr r)
  | CallGetUserInfo session_id => do r <- get_user_info session_id; Ret (inr r)
  | CallUnrestrictLink session_id link password =>
      do r <- unrestrict_link session_id link password; Ret (inr r)
  | CallListTorrents session_id filter =>
      do r <- list_torrents session_id filter; Ret (inr r)
  | CallAddMagnet session_id magnet => do r <- add_magnet session_id magnet; Ret (inr r)
  end.

(** ** What a task may do to the store *)

(** An assignment that leaves the client credentials of a dictionary. *)
Definition keeps_client (f : session -> session) : Prop :=
  forall s, clientId (f s) = clientId s /\ clientSecret (f s) = clientSecret s.

(** [tame n t]: in a well-formed store whose heap holds at least [n]
    dictionaries, [t] only uses references that point to a dictionary, and
    its assignments leave the client credentials alone. *)
Inductive tame {A : Type} : nat -> task A -> Prop :=
| tame_Ret n a : tame n (Ret a)
| tame_Raise n x : tame n (Raise x)
| tame_Await n r k : (forall x, tame n (k x)) -> tame n (Await r k)
| tame_TimeTime n k : (forall x, tame n (k x)) -> tame n (TimeTime k)
| tame_Urandom n m k : (forall x, tame n (k x)) -> tame n (Urandom m k)
| tame_TokensGet n sid k :
    tame n (k None) ->
    (forall m r, (n <= m)%nat -> (r < m)%nat -> tame m (k (Some r))) ->
    tame n (TokensGet sid k)
| tame_TokensSet n sid r k : (r < n)%nat -> tame n k -> tame n (TokensSet sid r k)
| tame_NewDict n s k :
    (forall m, (n <= m)%nat -> tame (S m) (k m)) -> tame n (NewDict s k)
| tame_Fetch n r k : (r < n)%nat -> (forall s, tame n (k s)) -> tame n (Fetch r k)
| tame_Assign n r f k :
    (r < n)%nat -> keeps_client f -> tame n k -> tame n (Assign r f k).

Definition thread_tame {A : Type} (n : nat) (th : thread A) : Prop :=
  match th with
  | Ready t => tame n t
  | Parked _ _ k => forall x, tame n (k x)
  | Done o => o <> Wild
  end.

(** How the store may have changed between two moments: no session id has
    left [user_tokens], no dictionary has left the heap, and every
    dictionary has the client credentials it had. *)
Definition evolves (s s' : store) : Prop :=
  (length (heap s) <= length (heap s'))%nat
  /\ (forall session_id, is_Some (user_tokens s !! session_id) ->
        is_Some (user_tokens s' !! session_id))
  /\ (activeSessions s <= activeSessions s')%nat
  /\ (forall r d, heap s !! r = Some d ->
        exists d', heap s' !! r = Some d'
                   /\ clientId d' = clientId d /\ clientSecret d' = clientSecret d).

(** [posts_at_most n t]: whatever the answers, [t] sends at most [n]
    requests to the token endpoint. *)
Inductive posts_at_most {A : Type} : nat -> task A -> Prop :=
| pam_Ret n a : posts_at_most n (Ret a)
| pam_Raise n x : posts_at_most n (Raise x)
| pam_Await_token n r k :
    is_token_call r = true -> (forall x, posts_at_most n (k x)) ->
    posts_at_most (S n) (Await r k)
| pam_Await_other n r k :
    is_token_call r = false -> (forall x, posts_at_most n (k x)) ->
    posts_at_most n (Await r k)
| pam_TimeTime n k : (forall x, posts_at_most n (k x)) -> posts_at_most n (TimeTime k)
| pam_Urandom n m k : (forall x, posts_at_most n (k x)) -> posts_at_most n (Urandom m k)
| pam_TokensGet n sid k :
    (forall x, posts_at_most n (k x)) -> posts_at_most n (TokensGet sid k)
| pam_TokensSet n sid r k : posts_at_most n k -> posts_at_most n (TokensSet sid r k)
| pam_NewDict n s k : (forall x, posts_at_most n (k x)) -> posts_at_most n (NewDict s k)
| pam_Fetch n r k : (forall x, posts_at_most n (k x)) -> posts_at_most n (Fetch r k)
| pam_Assign n r f k : posts_at_most n k -> posts_at_most n (Assign r f k).

Definition thread_posts_at_most {A : Type} (n : nat) (th : thread A) : Prop :=
  match th with
  | Ready t => posts_at_most n t
  | Parked _ _ k => forall x, posts_at_most n (k x)
  | Done _ => True
  end.

(** The device flow has been approved; the answers to the poll and to the
    token exchange lack nothing. *)
Definition APPROVED (n : nat) (r : request) : http_result :=
  if is_token_call r then HttpResponse 200 (token_body "A1" "R1" (JInt 3600))
  else HttpResponse 200 (credentials_body "idA" "secretA").

(** The number of requests to the token endpoint a call may cause. *)
Definition token_budget (c : tool_call) : nat :=
  match c with
  | CallOauthCheck _ | CallGetUserInfo _ => 1
  | _ => 0
  end.

(** [quiet B t]: run while [user_tokens] is [B], the task [t] leaves it
    [B]; the only bindings it writes are bindings [B] already has. *)
Inductive quiet {A : Type} (B : gmap string ref) : task A -> Prop :=
| quiet_Ret a : quiet B (Ret a)
| quiet_Raise x : quiet B (Raise x)
| quiet_Await r k : (forall x, quiet B (k x)) -> quiet B (Await r k)
| quiet_TimeTime k : (forall x, quiet B (k x)) -> quiet B (TimeTime k)
| quiet_Urandom n k : (forall x, quiet B (k x)) -> quiet B (Urandom n k)
| quiet_TokensGet sid k : quiet B (k (B !! sid)) -> quiet B (TokensGet sid k)
| quiet_TokensSet sid r k : B !! sid = Some r -> quiet B k -> quiet B (TokensSet sid r k)
| quiet_NewDict s k : (forall x, quiet B (k x)) -> quiet B (NewDict s k)
| quiet_Fetch r k : (forall x, quiet B (k x)) -> quiet B (Fetch r k)
| quiet_Assign r f k : quiet B k -> quiet B (Assign r f k).

Definition thread_quiet {A : Type} (B : gmap string ref) (th : thread A) : Prop :=
  match th with
  | Ready t => quiet B t
  | Parked _ _ k => forall x, quiet B (k x)
  | Done _ => True
  end.

Definition is_oauth_check (c : tool_call) : bool :=
  match c with
  | CallOauthCheck _ => true
  | _ => false
  end.

(** The clock stands at 1.5 and the random source gives zeros: the id that
    [oauth_check] makes is [ALICE_ID]. *)
Definition COLLIDING : env := Env (fun _ => dyadic 3 (-1)) (fun _ => x00) APPROVED.

(** How [get_user_info] goes on once the [/user] call is answered. *)
Definition user_reply (res : http_result) : task text :=
  do data <- api_result res; Ret (Dumps data).

(** The handlers of a pool that have not started. *)
Fixpoint unstarted {A : Type} (pool : list (thread A)) : nat :=
  match pool with
  | [] => 0
  | Ready _ :: rest => S (unstarted rest)
  | _ :: rest => unstarted rest
  end.

(** * Properties *)

(** ** The interpreter *)

Lemma run_bind {A B : Type} (e : env) (m : task A) (f : A -> task B) (w : world) :
  run e (bind m f) w =
  match run e m w with
  | (Returned a, w') => run e (f a) w'
  | (Raised x, w') => (Raised x, w')
  | (Wild, w') => (Wild, w')
  end.
Proof.
  revert w.
  induction m as [a|x|r k IH|k IH|n k IH|sid k IH|sid r k IH|s k IH|r k IH|r g k IH];
    intros w; simpl; auto.
  - destruct (heap (st w) !! r); auto.
  - destruct (heap (st w) !! r); auto.
Qed.

(** Running to completion is resuming until done. *)
Lemma run_advance {A : Type} (e : env) (t : task A) (w : world) :
  run e t w =
  match advance e t w with
  | (Ready t', w') => run e t' w'
  | (Parked n r k, w') => run e (k (server e n r)) w'
  | (Done o, w') => (o, w')
  end.
Proof.
  revert w.
  induction t as [a|x|r k IH|k IH|n k IH|sid k IH|sid r k IH|s k IH|r k IH|r g k IH];
    intros w; simpl; auto.
  - destruct (heap (st w) !! r); auto.
  - destruct (heap (st w) !! r); auto.
Qed.

(** ** Unknown session ids *)

(** C5.  For a session id that [user_tokens] does not hold, each of
    [get_user_info], [unrestrict_link], [list_torrents] and [add_magnet]
    raises a [ToolError] whose message tells the caller to authenticate
    first, and the world is left as it was: no request is sent and the token
    store is unchanged. *)
Theorem unknown_session_rejected (e : env) (w : world)
    (session_id link magnet : string) (password filter : option string) :
  user_tokens (st w) !! session_id = None ->
  run e (get_user_info session_id) w = (Raised (ToolError INVALID_SESSION_LONG), w)
  /\ run e (unrestrict_link session_id link password) w
     = (Raised (ToolError INVALID_SESSION), w)
  /\ run e (list_torrents session_id filter) w = (Raised (ToolError INVALID_SESSION), w)
  /\ run e (add_magnet session_id magnet) w = (Raised (ToolError INVALID_SESSION), w)
  /\ is_infix "authenticate first" INVALID_SESSION_LONG = true
  /\ is_infix "authenticate first" INVALID_SESSION = true.
Proof.
  intros Hnone.
  repeat split; try reflexivity; simpl; rewrite Hnone; reflexivity.
Qed.

Lemma unknown_session_rejected_witness :
  user_tokens (st START) !! "session_1_00000000" = None
  /\ run SAME_SECOND (get_user_info "session_1_00000000") START
     = (Raised (ToolError INVALID_SESSION_LONG), START).
Proof.
  split; [reflexivity|].
  apply (unknown_session_rejected SAME_SECOND START "session_1_00000000" "" "" None None).
  reflexivity.
Defined.

(** ** Polling before the user has approved *)

(** [oauth_check] when the poll is answered with a status other than 200. *)
Lemma run_oauth_check_pending (e : env) (w : world) (device_code : string)
    (status_code : Z) (body : option json) :
  server e (length (sent w)) (credentials_call device_code)
    = HttpResponse status_code body ->
  status_code <> 200 ->
  run e (oauth_check device_code) w
  = (Returned (Dumps PENDING_NOT_AUTHORIZED), send (credentials_call device_code) w).
Proof.
  intros Hpoll Hstatus.
  unfold oauth_check, get_device_credentials. simpl. rewrite Hpoll.
  destruct (Z.eqb_spec status_code 200) as [->|_]; [contradiction|].
  reflexivity.
Qed.

(** C4.  When the poll of [/device/credentials] is answered with any status
    other than 200, [oauth_check] returns the pending status, without a
    session id; the only effect is the poll itself, so the token store (and
    with it the clock and the random source) is untouched, however often the
    call is repeated. *)
Theorem check_auth_pending (e : env) (w : world) (device_code : string)
    (status_code : Z) (body : option json) :
  server e (length (sent w)) (credentials_call device_code)
    = HttpResponse status_code body ->
  status_code <> 200 ->
  run e (oauth_check device_code) w
    = (Returned (Dumps PENDING_NOT_AUTHORIZED), send (credentials_call device_code) w)
  /\ st (send (credentials_call device_code) w) = st w
  /\ getitem PENDING_NOT_AUTHORIZED "status" = inr (JStr "pending")
  /\ getitem PENDING_NOT_AUTHORIZED "session_id" = inl (KeyError "session_id").
Proof.
  intros Hpoll Hstatus.
  repeat split.
  exact (run_oauth_check_pending e w device_code status_code body Hpoll Hstatus).
Qed.

(** An OAuth server that answers every poll with 403. *)
Lemma check_auth_pending_witness :
  let e := Env (fun _ => float_of_Z 0) (fun _ => x00) (fun _ _ => HttpResponse 403 None) in
  run e (oauth_check "DEVICECODE") START
    = (Returned (Dumps PENDING_NOT_AUTHORIZED), send (credentials_call "DEVICECODE") START).
Proof.
  intros e.
  apply (check_auth_pending e START "DEVICECODE" 403 None); [reflexivity|lia].
Defined.

(** Any number of pending checks in a row leaves the token store alone. *)
Lemma pending_checks_keep_store (e : env) (codes : list string) (w : world) :
  (forall n device_code, exists status_code body,
      server e n (credentials_call device_code) = HttpResponse status_code body
      /\ status_code <> 200) ->
  st (snd (run_each e (map oauth_check codes) w)) = st w.
Proof.
  intros Hpending. revert w.
  induction codes as [|device_code codes IH]; intros w; [reflexivity|].
  destruct (Hpending (length (sent w)) device_code) as (sc & body & Hpoll & Hsc).
  pose proof (run_oauth_check_pending e w device_code sc body Hpoll Hsc) as Hrun.
  cbn [map run_each]. rewrite Hrun.
  specialize (IH (send (credentials_call device_code) w)).
  destruct (run_each e (map oauth_check codes) (send (credentials_call device_code) w))
    as [os w2].
  exact IH.
Qed.

(** ** An omitted password *)

(** C10.  [unrestrict_link] with the empty string as password is the same
    task as with no password: the form it posts holds the link alone, and no
    [password] field. *)
Theorem empty_password_is_omitted (session_id link : string) :
  unrestrict_link session_id link (Some "") = unrestrict_link session_id link None
  /\ unrestrict_body link (Some "") = [("link", JStr link)]
  /\ unrestrict_body link None = [("link", JStr link)]
  /\ assoc "password" (unrestrict_body link (Some "")) = None
  /\ (forall access_token,
        api_call "/unrestrict/link" access_token "POST"
          (Some (unrestrict_body link (Some "")))
        = api_call "/unrestrict/link" access_token "POST"
            (Some (unrestrict_body link None)))
  /\ urlencode (unrestrict_body link (Some ""))
     = Some ("link=" +:+ quote_plus link).
Proof.
  repeat split; try reflexivity.
  assert (Hnil : forall s : string, s +:+ "" = s).
  { induction s as [|c s IH]; [reflexivity|].
    change (String c s +:+ "") with (String c (s +:+ "")). now rewrite IH. }
  unfold unrestrict_body. cbn [truthy urlencode py_str].
  replace (quote_plus "link") with "link" by reflexivity.
  rewrite Hnil. reflexivity.
Qed.

Example urlencode_link :
  urlencode (unrestrict_body "https://host.example/a file" (Some "p&q"))
  = Some "link=https%3A%2F%2Fhost.example%2Fa+file&password=p%26q".
Proof. reflexivity. Qed.

(** ** One API request *)

(** Mapping a response has no effect on the world. *)
Lemma api_result_pure (e : env) (res : http_result) (w : world) :
  snd (run e (api_result res) w) = w.
Proof.
  destruct res as [status_code [data|]|]; simpl; try reflexivity.
  - destruct (status_code =? 204)%Z; [reflexivity|]. simpl.
    destruct (400 <=? status_code)%Z; [|reflexivity].
    destruct data; simpl; try reflexivity.
    destruct (assoc "error" fields); simpl;
      destruct (assoc "error_code" fields); reflexivity.
  - destruct (status_code =? 204)%Z; reflexivity.
Qed.

(** What a handler does once it holds the access token: one request, and
    the mapped response handed back as text. *)
Lemma run_api_request (e : env) (w : world) (endpoint : string)
    (access_token : json) (method : string) (body : option form) :
  let call := api_call endpoint access_token method body in
  run e (do data <- rd_api_request endpoint access_token method body; Ret (Dumps data)) w
  = (map_outcome Dumps (fst (run e (api_result (server e (length (sent w)) call)) (send call w))),
     send call w).
Proof.
  intros call. unfold rd_api_request. cbn [bind run]. fold call.
  rewrite run_bind.
  pose proof (api_result_pure e (server e (length (sent w)) call) (send call w)) as Hw.
  destruct (run e (api_result (server e (length (sent w)) call)) (send call w))
    as [[data|x|] w']; simpl in *; subst w'; reflexivity.
Qed.

Lemma refresh_calls_app (rs rs' : list request) :
  refresh_calls (rs ++ rs') = (refresh_calls rs + refresh_calls rs')%nat.
Proof. unfold refresh_calls. rewrite List.filter_app. apply length_app. Qed.

Lemma api_call_not_token_call (endpoint : string) (access_token : json)
    (method : string) (body : option form) :
  is_token_call (api_call endpoint access_token method body) = false.
Proof.
  unfold api_call. destruct (String.eqb method "GET"); reflexivity.
Qed.

Lemma refresh_calls_api_call (endpoint : string) (access_token : json)
    (method : string) (body : option form) :
  refresh_calls [api_call endpoint access_token method body] = 0%nat.
Proof.
  unfold refresh_calls. cbn [List.filter].
  rewrite api_call_not_token_call. reflexivity.
Qed.

(** ** A token that has not expired *)

(** [get_user_info] when the clock reads less than [expiresAt]: the check
    fails, nothing is refreshed, the stored token goes out. *)
Lemma run_get_user_info_unexpired (e : env) (w : world) (session_id : string)
    (r : ref) (d : session) :
  user_tokens (st w) !! session_id = Some r ->
  heap (st w) !! r = Some d ->
  SFltb (clock e (ticks w)) (expiresAt d) = true ->
  let call := api_call "/user" (accessToken d) "GET" None in
  let w' := send call (tick w) in
  run e (get_user_info session_id) w
  = (map_outcome Dumps (fst (run e (api_result (server e (length (sent w)) call)) w')), w').
Proof.
  intros Hsid Href Hnow call w'.
  assert (Hcmp : float_ge (clock e (ticks w)) (expiresAt d) = false).
  { unfold float_ge. unfold SFltb in Hnow.
    destruct (SFcompare (clock e (ticks w)) (expiresAt d)) as [[| |]|];
      solve [reflexivity | discriminate Hnow]. }
  unfold get_user_info. cbn [run]. rewrite Hsid.
  rewrite run_bind. cbn [run].
  change (st (tick w)) with (st w). rewrite Href, Hcmp. cbn [run].
  change (st (tick w)) with (st w). rewrite Href.
  apply (run_api_request e (tick w) "/user" (accessToken d) "GET" None).
Qed.

(** C2.  When the session is stored and the clock reads less than its
    [expiresAt], [get_user_info] sends exactly one request, the [/user]
    call carrying the stored [accessToken]; it sends no refresh call and the
    token store is the same afterwards. *)
Theorem unexpired_token_used_as_is (e : env) (w : world) (session_id : string)
    (r : ref) (d : session) :
  user_tokens (st w) !! session_id = Some r ->
  heap (st w) !! r = Some d ->
  SFltb (clock e (ticks w)) (expiresAt d) = true ->
  let call := api_call "/user" (accessToken d) "GET" None in
  let w' := send call (tick w) in
  run e (get_user_info session_id) w
    = (map_outcome Dumps (fst (run e (api_result (server e (length (sent w)) call)) w')), w')
  /\ st w' = st w
  /\ sent w' = sent w ++ [call]
  /\ refresh_calls (sent w') = refresh_calls (sent w).
Proof.
  intros Hsid Href Hnow call w'.
  repeat split.
  - exact (run_get_user_info_unexpired e w session_id r d Hsid Href Hnow).
  - unfold w'. cbn [send sent tick]. rewrite refresh_calls_app.
    unfold call. rewrite refresh_calls_api_call. lia.
Qed.

Lemma unexpired_token_used_as_is_witness :
  run EARLY (get_user_info ALICE_ID) ONE_SESSION
  = (Returned (Dumps (JObj [("id", JInt 42); ("username", JStr "alice")])),
     send (api_call "/user" (JStr "T1") "GET" None) (tick ONE_SESSION)).
Proof.
  apply (unexpired_token_used_as_is EARLY ONE_SESSION ALICE_ID 0%nat ALICE);
    reflexivity.
Defined.

(** ** An expired token *)

Lemma token_payload_ok (e : env) (w : world) (data a rt x : json) :
  getitem data "access_token" = inr a ->
  getitem data "refresh_token" = inr rt ->
  getitem data "expires_in" = inr x ->
  run e (token_payload data) w = (Returned (Tokens a rt x), w).
Proof.
  intros Ha Hrt Hx. unfold token_payload. rewrite Ha, Hrt, Hx. reflexivity.
Qed.

(** The refresh inside [get_user_info], run without interruption on a
    well-formed answer of the token endpoint. *)
Lemma run_refresh_session (e : env) (w : world) (session_id : string) (r : ref)
    (d : session) (status_code : Z) (data a rt x : json) (expires_at : float) :
  user_tokens (st w) !! session_id = Some r ->
  heap (st w) !! r = Some d ->
  let refresh := token_call (clientId d) (clientSecret d) (refreshToken d) in
  server e (length (sent w)) refresh = HttpResponse status_code (Some data) ->
  getitem data "access_token" = inr a ->
  getitem data "refresh_token" = inr rt ->
  getitem data "expires_in" = inr x ->
  float_add (clock e (ticks w)) x = inr expires_at ->
  run e (refresh_session session_id r d) w
  = (Returned tt,
     World (Store (<[r := Session a rt expires_at (clientId d) (clientSecret d)]> (heap (st w)))
                  (user_tokens (st w)))
           (S (ticks w)) (drawn w) (sent w ++ [refresh])).
Proof.
  intros Hsid Href refresh Hres Ha Hrt Hx Hadd.
  pose proof (lookup_lt_Some _ _ _ Href) as Hlt.
  unfold refresh_session, refresh_access_token. cbn [bind run]. fold refresh.
  rewrite Hres. cbn [bind response_json].
  rewrite !run_bind.
  rewrite (token_payload_ok e _ data a rt x Ha Hrt Hx).
  cbn [run tok_accessToken tok_refreshToken tok_expiresIn send tick with_store
       st heap user_tokens ticks drawn sent].
  rewrite Href.
  cbn [run tok_accessToken tok_refreshToken tok_expiresIn send tick with_store
       st heap user_tokens ticks drawn sent].
  rewrite list_lookup_insert_eq by exact Hlt.
  cbn [run tok_accessToken tok_refreshToken tok_expiresIn send tick with_store
       st heap user_tokens ticks drawn sent].
  rewrite Hadd.
  cbn [try bind run tok_accessToken tok_refreshToken tok_expiresIn send tick with_store
       st heap user_tokens ticks drawn sent].
  rewrite list_lookup_insert_eq by (rewrite !length_insert; exact Hlt).
  cbn [try bind run tok_accessToken tok_refreshToken tok_expiresIn send tick with_store
       st heap user_tokens ticks drawn sent].
  rewrite !list_insert_insert_eq.
  rewrite (insert_id (user_tokens (st w)) session_id r Hsid).
  reflexivity.
Qed.

(** [get_user_info] when the clock has reached [expiresAt] and the token
    endpoint answers with the three fields. *)
Lemma run_get_user_info_expired (e : env) (w : world) (session_id : string)
    (r : ref) (d : session) (status_code : Z) (data a rt x : json) (expires_at : float) :
  user_tokens (st w) !! session_id = Some r ->
  heap (st w) !! r = Some d ->
  float_ge (clock e (ticks w)) (expiresAt d) = true ->
  let refresh := token_call (clientId d) (clientSecret d) (refreshToken d) in
  server e (length (sent w)) refresh = HttpResponse status_code (Some data) ->
  getitem data "access_token" = inr a ->
  getitem data "refresh_token" = inr rt ->
  getitem data "expires_in" = inr x ->
  float_add (clock e (S (ticks w))) x = inr expires_at ->
  let d' := Session a rt expires_at (clientId d) (clientSecret d) in
  let call := api_call "/user" a "GET" None in
  let w' := World (Store (<[r := d']> (heap (st w))) (user_tokens (st w)))
              (S (S (ticks w))) (drawn w) (sent w ++ [refresh; call]) in
  run e (get_user_info session_id) w
  = (map_outcome Dumps
       (fst (run e (api_result (server e (S (length (sent w))) call)) w')), w').
Proof.
  intros Hsid Href Hnow refresh Hres Ha Hrt Hx Hadd d' call w'.
  pose proof (lookup_lt_Some _ _ _ Href) as Hlt.
  unfold get_user_info. cbn [run]. rewrite Hsid.
  rewrite run_bind. cbn [run].
  change (st (tick w)) with (st w). rewrite Href, Hnow.
  rewrite (run_refresh_session e (tick w) session_id r d status_code data a rt x
             expires_at Hsid Href Hres Ha Hrt Hx Hadd).
  cbn [run st heap tick ticks drawn sent].
  rewrite list_lookup_insert_eq by exact Hlt.
  fold refresh. fold d'.
  rewrite (run_api_request e _ "/user" a "GET" None).
  fold call. unfold send. cbn [st ticks drawn sent].
  rewrite length_app, Nat.add_1_r, <- app_assoc. reflexivity.
Qed.

(** The refresh when nothing goes wrong.  The session is stored, the clock
    has reached its [expiresAt], the token endpoint answers the refresh call
    with an object holding [access_token], [refresh_token] and an
    [expires_in] that the clock reading can be added to: [get_user_info]
    posts the refresh call with the stored client id, client secret and
    refresh token, then replaces [accessToken], [refreshToken] and
    [expiresAt] of the record, the latter by the float sum of the clock
    reading taken after the answer and [expires_in], and sends the [/user]
    call with the new access token.  [clientId], [clientSecret] and every
    other dictionary are unchanged. *)
Lemma expired_token_is_refreshed (e : env) (w : world) (session_id : string)
    (r : ref) (d : session) (status_code : Z) (data a rt x : json) (expires_at : float) :
  user_tokens (st w) !! session_id = Some r ->
  heap (st w) !! r = Some d ->
  float_ge (clock e (ticks w)) (expiresAt d) = true ->
  let refresh := token_call (clientId d) (clientSecret d) (refreshToken d) in
  server e (length (sent w)) refresh = HttpResponse status_code (Some data) ->
  getitem data "access_token" = inr a ->
  getitem data "refresh_token" = inr rt ->
  getitem data "expires_in" = inr x ->
  float_add (clock e (S (ticks w))) x = inr expires_at ->
  let d' := Session a rt expires_at (clientId d) (clientSecret d) in
  let call := api_call "/user" a "GET" None in
  let w' := World (Store (<[r := d']> (heap (st w))) (user_tokens (st w)))
              (S (S (ticks w))) (drawn w) (sent w ++ [refresh; call]) in
  run e (get_user_info session_id) w
    = (map_outcome Dumps
         (fst (run e (api_result (server e (S (length (sent w))) call)) w')), w')
  /\ record_of (st w') session_id = Some d'
  /\ (forall z f, x = JInt z -> int_to_float z = inr f ->
        expires_at = SFadd 53 1024 (clock e (S (ticks w))) f).
Proof.
  intros Hsid Href Hnow refresh Hres Ha Hrt Hx Hadd d' call w'.
  pose proof (lookup_lt_Some _ _ _ Href) as Hlt.
  repeat split.
  - exact (run_get_user_info_expired e w session_id r d status_code data a rt x
             expires_at Hsid Href Hnow Hres Ha Hrt Hx Hadd).
  - unfold record_of, w'. cbn [st user_tokens heap]. rewrite Hsid.
    apply list_lookup_insert_eq. exact Hlt.
  - intros z f -> Hf. cbn [float_add] in Hadd. rewrite Hf in Hadd. congruence.
Qed.

Lemma expired_token_is_refreshed_witness :
  let e := LATE (token_body "T2" "R2" (JInt 3600)) in
  let d' := Session (JStr "T2") (JStr "R2") (float_of_Z 5601)
              (JStr "idA") (JStr "secretA") in
  let w' := World (Store [d'] {[ ALICE_ID := 0%nat ]}) 2 0
              [token_call (JStr "idA") (JStr "secretA") (JStr "R1");
               api_call "/user" (JStr "T2") "GET" None] in
  run e (get_user_info ALICE_ID) ONE_SESSION
  = (Returned (Dumps (JObj [("id", JInt 42); ("username", JStr "alice")])), w').
Proof.
  intros e d' w'.
  apply (expired_token_is_refreshed e ONE_SESSION ALICE_ID 0%nat ALICE 200
           (JObj [("access_token", JStr "T2"); ("refresh_token", JStr "R2");
                  ("expires_in", JInt 3600); ("token_type", JStr "Bearer")])
           (JStr "T2") (JStr "R2") (JInt 3600) (float_of_Z 5601));
    reflexivity.
Defined.

(** C3, on the code.  The stored token has expired and the token endpoint
    answers the refresh call with [expires_in] sent as the string ["3600"],
    or as the integer [10^400]: [get_user_info] replaces the access token
    and the refresh token of the record, then the addition for [expiresAt]
    raises ([TypeError], [OverflowError]); the record is left with the new
    tokens and the old [expiresAt], and the [/user] call is not sent. *)
Theorem refresh_partial_update :
  let e := LATE (token_body "T2" "R2" (JStr "3600")) in
  let e' := LATE (token_body "T2" "R2" (JInt (10 ^ 400))) in
  let half := Session (JStr "T2") (JStr "R2") (expiresAt ALICE) (JStr "idA") (JStr "secretA") in
  record_of (st ONE_SESSION) ALICE_ID = Some ALICE
  /\ float_ge (clock e (ticks ONE_SESSION)) (expiresAt ALICE) = true
  /\ fst (run e (get_user_info ALICE_ID) ONE_SESSION) = Raised TypeError
  /\ record_of (st (snd (run e (get_user_info ALICE_ID) ONE_SESSION))) ALICE_ID = Some half
  /\ sent (snd (run e (get_user_info ALICE_ID) ONE_SESSION))
     = [token_call (JStr "idA") (JStr "secretA") (JStr "R1")]
  /\ fst (run e' (get_user_info ALICE_ID) ONE_SESSION) = Raised OverflowError
  /\ record_of (st (snd (run e' (get_user_info ALICE_ID) ONE_SESSION))) ALICE_ID = Some half.
Proof.
  intros e e' half. repeat split.
Qed.

(** An answer that lacks one of the three fields, or is not JSON at all,
    raises before the first assignment: the store is unchanged. *)
Lemma refresh_without_tokens_keeps_store (e : env) (w : world) (session_id : string)
    (r : ref) (d : session) (status_code : Z) (body : option json) :
  user_tokens (st w) !! session_id = Some r ->
  heap (st w) !! r = Some d ->
  float_ge (clock e (ticks w)) (expiresAt d) = true ->
  let refresh := token_call (clientId d) (clientSecret d) (refreshToken d) in
  server e (length (sent w)) refresh = HttpResponse status_code body ->
  (forall data, body = Some data ->
     (exists x, getitem data "access_token" = inl x)
     \/ (exists x, getitem data "refresh_token" = inl x)
     \/ (exists x, getitem data "expires_in" = inl x)) ->
  exists x, run e (get_user_info session_id) w = (Raised x, send refresh (tick w)).
Proof.
  intros Hsid Href Hnow refresh Hres Hbad.
  unfold get_user_info. cbn [run]. rewrite Hsid.
  rewrite run_bind. cbn [run].
  change (st (tick w)) with (st w). rewrite Href, Hnow.
  unfold refresh_session, refresh_access_token. cbn [bind run]. fold refresh.
  change (sent (tick w)) with (sent w). rewrite Hres.
  destruct body as [data|]; [|eexists; reflexivity].
  cbn [bind response_json]. unfold token_payload.
  destruct (Hbad data eq_refl) as [[x Hx]|[[x Hx]|[x Hx]]].
  - rewrite Hx. eexists; reflexivity.
  - destruct (getitem data "access_token"); [eexists; reflexivity|].
    cbn [try bind]. rewrite Hx. eexists; reflexivity.
  - destruct (getitem data "access_token"); [eexists; reflexivity|].
    cbn [try bind].
    destruct (getitem data "refresh_token"); [eexists; reflexivity|].
    cbn [try bind]. rewrite Hx. eexists; reflexivity.
Qed.

(** ** Responses of the API *)

(** C6, as the code has it.  [rd_api_request] sends one request and maps
    the answer by its status: 204 gives the success marker without reading
    the body; any other 2xx with a JSON body gives the parsed body as it is;
    a status of 400 or more always raises and never returns a value.  What
    it raises depends on the body: for an object, the exception with the
    message "Real-Debrid API Error: <error> (Code: <error_code>)" built from
    the values of [error] and [error_code] as they were sent ("Unknown
    error" and "N/A" where the key is missing); for a body that is not
    JSON, the decoding error; for JSON that is not an object, an attribute
    error.  For the error [password_protected] with code 19 the message
    reads "Real-Debrid API Error: password_protected (Code: 19)". *)
Theorem api_response_mapping (e : env) (w : world) (endpoint : string)
    (access_token : json) (method : string) (body : option form)
    (status_code : Z) (answer : option json) :
  let call := api_call endpoint access_token method body in
  server e (length (sent w)) call = HttpResponse status_code answer ->
  let result := run e (rd_api_request endpoint access_token method body) w in
  snd result = send call w
  /\ (status_code = 204 -> fst result = Returned (JObj [("success", JBool true)]))
  /\ (forall data, 200 <= status_code < 300 -> status_code <> 204 ->
        answer = Some data -> fst result = Returned data)
  /\ (400 <= status_code ->
        fst result
        = match answer with
          | None => Raised JSONDecodeError
          | Some (JObj fields) =>
              Raised (Exception
                        [Lit "Real-Debrid API Error: ";
                         Val (default (JStr "Unknown error") (assoc "error" fields));
                         Lit " (Code: ";
                         Val (default (JStr "N/A") (assoc "error_code" fields));
                         Lit ")"])
          | Some _ => Raised AttributeError
          end)
  /\ (forall error_msg error_code,
        render [Lit "Real-Debrid API Error: "; Val (JStr error_msg);
                Lit " (Code: "; Val (JInt error_code); Lit ")"]
        = Some ("Real-Debrid API Error: " +:+ error_msg +:+ " (Code: "
                +:+ pretty error_code +:+ ")"))
  /\ render [Lit "Real-Debrid API Error: "; Val (JStr "password_protected");
             Lit " (Code: "; Val (JInt 19); Lit ")"]
     = Some "Real-Debrid API Error: password_protected (Code: 19)".
Proof.
  intros call Hres result.
  assert (Hrun : result = run e (api_result (HttpResponse status_code answer)) (send call w)).
  { unfold result, rd_api_request. cbn [run]. fold call. rewrite Hres. reflexivity. }
  rewrite Hrun. clear Hrun result Hres.
  split; [apply api_result_pure|].
  split; [intros ->; reflexivity|].
  split.
  { intros data Hrange Hnot -> . cbn [api_result].
    destruct (Z.eqb_spec status_code 204) as [?|_]; [contradiction|].
    cbn [response_json bind].
    destruct (Z.leb_spec 400 status_code) as [?|_]; [lia|]. reflexivity. }
  split.
  { intros Hge. cbn [api_result].
    destruct (Z.eqb_spec status_code 204) as [?|_]; [lia|].
    destruct answer as [data|]; [|reflexivity].
    cbn [response_json bind].
    destruct (Z.leb_spec 400 status_code) as [_|?]; [|lia].
    destruct data; try reflexivity.
    cbn [get_default].
    destruct (assoc "error" fields), (assoc "error_code" fields); reflexivity. }
  split; [|reflexivity].
  intros error_msg error_code. reflexivity.
Qed.

(** C6 as the specification words it fails: a gateway answers 502 with a
    page that is not JSON; what [rd_api_request] raises is the decoding
    error of [response.json()], not the API error with a message and a code
    of the remote. *)
Lemma bad_gateway_is_not_api_error :
  let e := Env (fun _ => float_of_Z 0) (fun _ => x00) (fun _ _ => HttpResponse 502 None) in
  let result := fst (run e (rd_api_request "/unrestrict/link" (JStr "T1") "POST"
                              (Some (unrestrict_body "https://host.example/file" None)))
                       START) in
  result = Raised JSONDecodeError
  /\ forall msg, result <> Raised (Exception msg).
Proof.
  intros e result. split; [reflexivity|]. intros msg. discriminate.
Qed.

Lemma api_response_mapping_witness :
  fst (run REFUSING
         (rd_api_request "/unrestrict/link" (JStr "T1") "POST"
            (Some (unrestrict_body "https://host.example/file" None)))
         ONE_SESSION)
  = Raised (Exception [Lit "Real-Debrid API Error: "; Val (JStr "password_protected");
                       Lit " (Code: "; Val (JInt 19); Lit ")"]).
Proof.
  pose proof (api_response_mapping REFUSING ONE_SESSION "/unrestrict/link" (JStr "T1")
                "POST" (Some (unrestrict_body "https://host.example/file" None))
                403 PASSWORD_PROTECTED eq_refl) as (_ & _ & _ & H & _).
  apply H. lia.
Defined.

(** Without [error] or [error_code] in the object the exception carries the
    placeholders; a body that is not an object raises before the message is
    built. *)
Lemma api_error_placeholders (e : env) (w : world) (status_code : Z) :
  400 <= status_code ->
  fst (run e (api_result (HttpResponse status_code (Some (JObj [])))) w)
    = Raised (api_error (JStr "Unknown error") (JStr "N/A"))
  /\ fst (run e (api_result (HttpResponse status_code None)) w) = Raised JSONDecodeError
  /\ fst (run e (api_result (HttpResponse status_code (Some (JArr [])))) w)
     = Raised AttributeError.
Proof.
  intros Hge. cbn [api_result].
  destruct (Z.eqb_spec status_code 204) as [?|_]; [lia|].
  cbn [response_json bind].
  destruct (Z.leb_spec 400 status_code) as [_|?]; [|lia].
  repeat split; reflexivity.
Qed.

(** ** The tools that never look at the clock *)

(** [unrestrict_link], [list_torrents] and [add_magnet] send the stored
    access token whatever the clock says: the world after the call differs
    from the one before by the one API request. *)
Lemma stored_token_sent_unchecked (e : env) (w : world) (session_id : string)
    (r : ref) (d : session) (link magnet : string) (password filter : option string) :
  user_tokens (st w) !! session_id = Some r ->
  heap (st w) !! r = Some d ->
  snd (run e (unrestrict_link session_id link password) w)
    = send (api_call "/unrestrict/link" (accessToken d) "POST"
              (Some (unrestrict_body link password))) w
  /\ snd (run e (list_torrents session_id filter) w)
     = send (api_call (torrents_endpoint filter) (accessToken d) "GET" None) w
  /\ snd (run e (add_magnet session_id magnet) w)
     = send (api_call "/torrents/addMagnet" (accessToken d) "POST"
               (Some [("magnet", JStr magnet)])) w.
Proof.
  intros Hsid Href.
  repeat split;
    cbv beta delta [unrestrict_link list_torrents add_magnet]; cbn [run];
    rewrite Hsid; cbn [run]; rewrite Href; rewrite run_api_request; reflexivity.
Qed.

(** C1, on the code.  The stored token expired at 1000 and the clock reads
    2000: [get_user_info] refreshes first, but [unrestrict_link],
    [list_torrents] and [add_magnet] post no refresh call and send the
    expired token ["T1"]. *)
Theorem expired_token_sent_by_other_tools :
  let e := LATE (token_body "T2" "R2" (JInt 3600)) in
  record_of (st ONE_SESSION) ALICE_ID = Some ALICE
  /\ float_ge (clock e (ticks ONE_SESSION)) (expiresAt ALICE) = true
  /\ sent (snd (run e (get_user_info ALICE_ID) ONE_SESSION))
     = [token_call (JStr "idA") (JStr "secretA") (JStr "R1");
        api_call "/user" (JStr "T2") "GET" None]
  /\ sent (snd (run e (unrestrict_link ALICE_ID "https://host.example/file" None) ONE_SESSION))
     = [api_call "/unrestrict/link" (JStr "T1") "POST"
          (Some [("link", JStr "https://host.example/file")])]
  /\ sent (snd (run e (list_torrents ALICE_ID None) ONE_SESSION))
     = [api_call "/torrents" (JStr "T1") "GET" None]
  /\ sent (snd (run e (add_magnet ALICE_ID "magnet:?xt=urn:btih:00") ONE_SESSION))
     = [api_call "/torrents/addMagnet" (JStr "T1") "POST"
          (Some [("magnet", JStr "magnet:?xt=urn:btih:00")])].
Proof.
  intros e. repeat split.
Qed.

(** ** A rejected refresh token *)

(** [refresh_access_token] reads neither the status nor the error fields:
    an answer without [access_token] raises [KeyError], whatever else it
    holds, and an answer with the three token fields is accepted under any
    status. *)
Lemma refresh_ignores_status (e : env) (w : world) (client_id client_secret
    refresh_token : json) (status_code : Z) (fields : list (string * json)) :
  let call := token_call client_id client_secret refresh_token in
  server e (length (sent w)) call = HttpResponse status_code (Some (JObj fields)) ->
  (assoc "access_token" fields = None ->
     run e (refresh_access_token client_id client_secret refresh_token) w
     = (Raised (KeyError "access_token"), send call w))
  /\ (forall a rt x,
        assoc "access_token" fields = Some a ->
        assoc "refresh_token" fields = Some rt ->
        assoc "expires_in" fields = Some x ->
        run e (refresh_access_token client_id client_secret refresh_token) w
        = (Returned (Tokens a rt x), send call w)).
Proof.
  intros call Hres. unfold refresh_access_token. cbn [run]. fold call. rewrite Hres.
  cbn [response_json bind]. unfold token_payload, getitem.
  split.
  - intros ->. reflexivity.
  - intros a rt x -> -> ->. reflexivity.
Qed.

(** C7, on the code.  The token endpoint answers 401 with the error
    [bad_token], code 8; [refresh_access_token] raises
    [KeyError('access_token')], which carries neither, where
    [rd_api_request] on the same answer raises the API error with both. *)
Theorem rejected_refresh_raises_key_error :
  run REJECTING (refresh_access_token (JStr "idA") (JStr "secretA") (JStr "R1")) ONE_SESSION
  = (Raised (KeyError "access_token"),
     send (token_call (JStr "idA") (JStr "secretA") (JStr "R1")) ONE_SESSION)
  /\ fst (run REJECTING (rd_api_request "/user" (JStr "T1") "GET" None) ONE_SESSION)
     = Raised (api_error (JStr "bad_token") (JInt 8))
  /\ fst (run REJECTING (get_user_info ALICE_ID) ONE_SESSION)
     = Raised (KeyError "access_token").
Proof.
  repeat split.
Qed.

(** ** Session ids *)

Lemma append_length (s s' : string) :
  String.length (s +:+ s') = (String.length s + String.length s')%nat.
Proof. induction s as [|c s IH]; simpl; [reflexivity|]. now rewrite IH. Qed.

Lemma append_inj_l (s a b : string) : s +:+ a = s +:+ b -> a = b.
Proof. induction s as [|c s IH]; simpl; [auto|]. intros [= H]. auto. Qed.

Lemma append_inj_length (a b c d : string) :
  String.length a = String.length b -> a +:+ c = b +:+ d -> a = b /\ c = d.
Proof.
  revert b. induction a as [|x a IH]; intros [|y b]; simpl; try discriminate.
  - auto.
  - intros [= Hlen] [= -> Happ]. destruct (IH b Hlen Happ) as [-> ->]. auto.
Qed.

Lemma hex_digit_inj (x y : N) :
  (x < 16)%N -> (y < 16)%N -> hex_digit x = hex_digit y -> x = y.
Proof.
  intros Hx Hy.
  assert (x = 0 \/ x = 1 \/ x = 2 \/ x = 3 \/ x = 4 \/ x = 5 \/ x = 6 \/ x = 7 \/
          x = 8 \/ x = 9 \/ x = 10 \/ x = 11 \/ x = 12 \/ x = 13 \/ x = 14 \/ x = 15)%N
    as Hxs by lia.
  assert (y = 0 \/ y = 1 \/ y = 2 \/ y = 3 \/ y = 4 \/ y = 5 \/ y = 6 \/ y = 7 \/
          y = 8 \/ y = 9 \/ y = 10 \/ y = 11 \/ y = 12 \/ y = 13 \/ y = 14 \/ y = 15)%N
    as Hys by lia.
  clear Hx Hy.
  repeat (destruct Hxs as [->|Hxs]); try subst x;
    repeat (destruct Hys as [->|Hys]); try subst y;
    simpl; intros H; (reflexivity || discriminate H).
Qed.

Lemma byte_hex_inj (b b' : byte) : byte_hex b = byte_hex b' -> b = b'.
Proof.
  unfold byte_hex. intros [= Hhi Hlo].
  pose proof (Byte.to_N_bounded b) as Hb.
  pose proof (Byte.to_N_bounded b') as Hb'.
  apply hex_digit_inj in Hhi;
    [|apply N.Div0.div_lt_upper_bound; lia|apply N.Div0.div_lt_upper_bound; lia].
  apply hex_digit_inj in Hlo; [|apply N.mod_lt; lia|apply N.mod_lt; lia].
  assert (Byte.to_N b = Byte.to_N b') as Heq.
  { rewrite (N.div_mod (Byte.to_N b) 16), (N.div_mod (Byte.to_N b') 16) by lia.
    now rewrite Hhi, Hlo. }
  pose proof (Byte.of_to_N b) as H1. rewrite Heq, Byte.of_to_N in H1.
  now injection H1.
Qed.

Lemma bytes_hex_length (bs : list byte) :
  String.length (bytes_hex bs) = (2 * length bs)%nat.
Proof.
  induction bs as [|b bs IH]; [reflexivity|].
  cbn [bytes_hex]. rewrite append_length, IH. simpl. lia.
Qed.

Lemma bytes_hex_inj (bs bs' : list byte) :
  length bs = length bs' -> bytes_hex bs = bytes_hex bs' -> bs = bs'.
Proof.
  revert bs'. induction bs as [|b bs IH]; intros [|b' bs']; simpl; try discriminate.
  - reflexivity.
  - intros [= Hlen] [= Hhi Hlo Hrest].
    f_equal; [apply byte_hex_inj; unfold byte_hex; congruence|auto].
Qed.

(** A session id determines the clock second and the random bytes it was
    made from. *)
Lemma make_session_id_inj (seconds seconds' : Z) (rnd rnd' : list byte) :
  length rnd = length rnd' ->
  make_session_id seconds rnd = make_session_id seconds' rnd' ->
  seconds = seconds' /\ rnd = rnd'.
Proof.
  intros Hlen Hid. unfold make_session_id in Hid.
  apply append_inj_l in Hid.
  assert (String.length (pretty seconds) = String.length (pretty seconds'))
    as Hdigits.
  { apply (f_equal String.length) in Hid.
    rewrite !append_length, !bytes_hex_length, Hlen in Hid. lia. }
  apply append_inj_length in Hid as [Hsec Hrest]; [|exact Hdigits].
  split.
  - apply (inj pretty). exact Hsec.
  - apply append_inj_l in Hrest. apply bytes_hex_inj; assumption.
Qed.

Lemma urandom_length (e : env) (n : nat) (w : world) : length (urandom e n w) = n.
Proof. unfold urandom. now rewrite length_map, length_seq. Qed.

(** ** Completing the device flow *)

(** [oauth_check] once the user has approved: two requests, two clock
    readings, four random bytes, one new dictionary bound to the new id. *)
Lemma run_oauth_check (e : env) (w : world) (device_code : string)
    (creds toks : json) (client_id client_secret a rt x : json) (seconds : Z)
    (expires_at : float) :
  server e (length (sent w)) (credentials_call device_code)
    = HttpResponse 200 (Some creds) ->
  getitem creds "client_id" = inr client_id ->
  getitem creds "client_secret" = inr client_secret ->
  server e (S (length (sent w))) (token_call client_id client_secret (JStr device_code))
    = HttpResponse 200 (Some toks) ->
  getitem toks "access_token" = inr a ->
  getitem toks "refresh_token" = inr rt ->
  getitem toks "expires_in" = inr x ->
  py_int (clock e (ticks w)) = inr seconds ->
  float_add (clock e (S (ticks w))) x = inr expires_at ->
  let session_id := make_session_id seconds (urandom e 4 w) in
  run e (oauth_check device_code) w
  = (Returned (Dumps (authorized session_id x)),
     World (Store (heap (st w) ++ [Session a rt expires_at client_id client_secret])
                  (<[session_id := length (heap (st w))]> (user_tokens (st w))))
           (S (S (ticks w))) (4 + drawn w)
           (sent w ++ [credentials_call device_code;
                       token_call client_id client_secret (JStr device_code)])).
Proof.
  intros Hpoll Hid Hsecret Htok Ha Hrt Hx Hint Hadd session_id.
  unfold oauth_check, get_device_credentials. cbn [bind run]. rewrite Hpoll.
  cbn [Z.eqb Pos.eqb negb response_json bind]. rewrite Hid. cbn [try bind].
  rewrite Hsecret. cbn [try bind cred_clientId cred_clientSecret].
  unfold get_access_token. cbn [bind run].
  unfold send at 1. cbn [sent]. rewrite length_app, Nat.add_1_r, Htok.
  cbn [Z.eqb Pos.eqb negb response_json bind].
  rewrite !run_bind, (token_payload_ok e _ toks a rt x Ha Hrt Hx).
  cbn [run tok_accessToken tok_refreshToken tok_expiresIn].
  unfold send, tick, draw. cbn [st ticks drawn sent]. rewrite Hint.
  cbn [try bind run]. unfold tick, draw. cbn [st ticks drawn sent]. rewrite Hadd.
  cbn [try bind run with_store st heap user_tokens ticks drawn sent].
  rewrite <- app_assoc. reflexivity.
Qed.

(** C8, as the code has it.  On completion, that is when the poll and the
    exchange are answered 200 with their fields, the clock reading has a
    whole number of seconds and the float sum for [expiresAt] can be
    formed, [oauth_check] returns the id "session_" + the clock reading in
    whole seconds + "_" + the hex of four random bytes.  That id differs
    from every id made from another second or from other random bytes.
    When it is not yet in [user_tokens], the new record is stored under it,
    every other record is as before, and the number of sessions grows by
    one. *)
Theorem minted_session_id (e : env) (w : world) (device_code : string)
    (creds toks : json) (client_id client_secret a rt x : json) (seconds : Z)
    (expires_at : float) :
  store_wf (st w) ->
  server e (length (sent w)) (credentials_call device_code)
    = HttpResponse 200 (Some creds) ->
  getitem creds "client_id" = inr client_id ->
  getitem creds "client_secret" = inr client_secret ->
  server e (S (length (sent w))) (token_call client_id client_secret (JStr device_code))
    = HttpResponse 200 (Some toks) ->
  getitem toks "access_token" = inr a ->
  getitem toks "refresh_token" = inr rt ->
  getitem toks "expires_in" = inr x ->
  py_int (clock e (ticks w)) = inr seconds ->
  float_add (clock e (S (ticks w))) x = inr expires_at ->
  let rnd := urandom e 4 w in
  let session_id := make_session_id seconds rnd in
  let result := run e (oauth_check device_code) w in
  fst result = Returned (Dumps (authorized session_id x))
  /\ (forall seconds0 rnd0, length rnd0 = 4%nat ->
        make_session_id seconds0 rnd0 = session_id ->
        seconds0 = seconds /\ rnd0 = rnd)
  /\ (forall other, other <> session_id ->
        record_of (st (snd result)) other = record_of (st w) other)
  /\ (user_tokens (st w) !! session_id = None ->
        record_of (st (snd result)) session_id
          = Some (Session a rt expires_at client_id client_secret)
        /\ activeSessions (st (snd result)) = S (activeSessions (st w))).
Proof.
  intros Hwf Hpoll Hid Hsecret Htok Ha Hrt Hx Hint Hadd rnd session_id result.
  unfold result.
  rewrite (run_oauth_check e w device_code creds toks client_id client_secret a rt x
             seconds expires_at Hpoll Hid Hsecret Htok Ha Hrt Hx Hint Hadd).
  fold rnd session_id. cbn [fst snd st].
  split; [reflexivity|].
  split.
  { intros seconds0 rnd0 Hlen Heq. apply make_session_id_inj; [|exact Heq].
    unfold rnd. now rewrite urandom_length. }
  split.
  { intros other Hother. unfold record_of. cbn [user_tokens heap].
    rewrite lookup_insert_ne by congruence.
    destruct (user_tokens (st w) !! other) as [r|] eqn:Hr; [|reflexivity].
    apply lookup_app_l. exact (Hwf other r Hr). }
  intros Hfresh. split.
  - unfold record_of. cbn [user_tokens heap]. rewrite lookup_insert_eq.
    rewrite lookup_app_r by lia. now rewrite Nat.sub_diag.
  - unfold activeSessions. cbn [user_tokens].
    now apply map_size_insert_None.
Qed.

(** The first completion in an empty store. *)
Lemma minted_session_id_witness :
  fst (run SAME_SECOND (oauth_check "dcA") START)
  = Returned (Dumps (authorized "session_100_00000000" (JInt 3600))).
Proof.
  assert (store_wf (st START)) as Hwf.
  { intros sid r H. vm_compute in H. discriminate H. }
  pose proof (minted_session_id SAME_SECOND START "dcA"
                (JObj [("client_id", JStr "idA"); ("client_secret", JStr "secretA")])
                (JObj [("access_token", JStr "A1"); ("refresh_token", JStr "R1");
                       ("expires_in", JInt 3600); ("token_type", JStr "Bearer")])
                (JStr "idA") (JStr "secretA") (JStr "A1") (JStr "R1") (JInt 3600)
                100 (dyadic 7401 (-1))
                Hwf eq_refl eq_refl eq_refl eq_refl eq_refl eq_refl eq_refl eq_refl
                eq_refl)
    as (H & _).
  exact H.
Defined.

(** C8 as the specification words it fails: a second user who
    completes the flow in the same second, with the random source giving the
    same four bytes, is handed the session id of the first, and the first
    user's record is overwritten; the store still holds one session. *)
Lemma session_id_collision :
  let first := run SAME_SECOND (oauth_check "dcA") START in
  let second := run SAME_SECOND (oauth_check "dcB") (snd first) in
  fst first = Returned (Dumps (authorized "session_100_00000000" (JInt 3600)))
  /\ fst second = Returned (Dumps (authorized "session_100_00000000" (JInt 3600)))
  /\ record_of (st (snd first)) "session_100_00000000"
     = Some (Session (JStr "A1") (JStr "R1") (dyadic 7401 (-1))
               (JStr "idA") (JStr "secretA"))
  /\ record_of (st (snd second)) "session_100_00000000"
     = Some (Session (JStr "B1") (JStr "S1") (dyadic 29607 (-3))
               (JStr "idB") (JStr "secretB"))
  /\ activeSessions (st (snd second)) = 1%nat.
Proof.
  intros first second. repeat split.
Qed.

(** ** Concurrent requests for one session *)

(** C9 as the specification words it fails: two [get_user_info]
    handlers for the same expired session, the second started while the
    first awaits its refresh call, post two refresh calls, both with the
    refresh token ["R1"]. *)
Lemma concurrent_requests_refresh_twice :
  let pool := [Ready (get_user_info ALICE_ID); Ready (get_user_info ALICE_ID)] in
  let final := interleave RACE [0; 1; 0; 1; 0; 1]%nat (pool, ONE_SESSION) in
  float_ge (clock RACE (ticks ONE_SESSION)) (expiresAt ALICE) = true
  /\ outcomes (fst final)
     = Some [Returned (Dumps (JObj [("id", JInt 42); ("username", JStr "alice")]));
             Returned (Dumps (JObj [("id", JInt 42); ("username", JStr "alice")]))]
  /\ sent (snd final)
     = [token_call (JStr "idA") (JStr "secretA") (JStr "R1");
        token_call (JStr "idA") (JStr "secretA") (JStr "R1");
        api_call "/user" (JStr "T2") "GET" None;
        api_call "/user" (JStr "T3") "GET" None]
  /\ refresh_calls (sent (snd final)) = 2%nat.
Proof.
  intros pool final. repeat split.
Qed.

(** A handler that the event loop resumes until it is done, with no other
    handler in between, does what [run] says. *)
Lemma uninterrupted_is_run {A : Type} (e : env) (t : task A) (i : nat) :
  forall (th : thread A) (w0 w : world) (pool : list (thread A)),
  pool !! i = Some th ->
  resume e th w0 = advance e t w ->
  exists k, interleave e (repeat i k) (pool, w0)
            = (<[i := Done (fst (run e t w))]> pool, snd (run e t w)).
Proof.
  assert (Hone : forall (th : thread A) (w0 w' : world) (pool : list (thread A)) o,
             pool !! i = Some th -> resume e th w0 = (Done o, w') ->
             interleave e (repeat i 1) (pool, w0) = (<[i := Done o]> pool, w')).
  { intros th w0 w' pool o Hth Hres. cbn [repeat interleave fold_left].
    unfold turn. cbn [fst snd]. now rewrite Hth, Hres. }
  induction t as [a|x|r k IH|k IH|n k IH|sid k IH|sid r k IH|s k IH|r k IH|r g k IH];
    intros th w0 w pool Hth Hres; cbn [advance] in Hres; cbn [run].
  - exists 1%nat. now apply (Hone th).
  - exists 1%nat. now apply (Hone th).
  - pose proof (lookup_lt_Some _ _ _ Hth) as Hlt.
    destruct (IH (server e (length (sent w)) r) (Parked (length (sent w)) r k)
                (send r w) (send r w) (<[i := Parked (length (sent w)) r k]> pool))
      as [n Hn].
    + now apply list_lookup_insert_eq.
    + reflexivity.
    + exists (S n). cbn [repeat interleave fold_left].
      unfold turn at 2. cbn [fst snd]. rewrite Hth, Hres.
      unfold interleave in Hn. rewrite Hn. now rewrite list_insert_insert_eq.
  - now apply (IH _ th w0 _ pool).
  - now apply (IH _ th w0 _ pool).
  - now apply (IH _ th w0 _ pool).
  - now apply (IH th w0 _ pool).
  - now apply (IH _ th w0 _ pool).
  - destruct (heap (st w) !! r) as [s|].
    + now apply (IH _ th w0 _ pool).
    + exists 1%nat. now apply (Hone th).
  - destruct (heap (st w) !! r) as [s|].
    + now apply (IH th w0 _ pool).
    + exists 1%nat. now apply (Hone th).
Qed.

(** In particular for a handler that has not started. *)
Lemma fresh_handler_is_run {A : Type} (e : env) (t : task A) (i : nat)
    (pool : list (thread A)) (w : world) :
  pool !! i = Some (Ready t) ->
  exists k, interleave e (repeat i k) (pool, w)
            = (<[i := Done (fst (run e t w))]> pool, snd (run e t w)).
Proof.
  intros Hth. now apply (uninterrupted_is_run e t i (Ready t) w w pool).
Qed.

(** Under interleaving: the handler parks at the refresh call, and the turn
    that delivers a well-formed answer makes the three assignments and
    parks at the [/user] call, whatever other handlers did to the
    dictionary in the meantime.  No other handler can see the record with
    only some of the three fields replaced. *)
Lemma refresh_assignments_in_one_turn (e : env) (w : world) (session_id : string)
    (r : ref) (d : session) :
  user_tokens (st w) !! session_id = Some r ->
  heap (st w) !! r = Some d ->
  float_ge (clock e (ticks w)) (expiresAt d) = true ->
  let refresh := token_call (clientId d) (clientSecret d) (refreshToken d) in
  exists k,
    advance e (get_user_info session_id) w
      = (Parked (length (sent w)) refresh k, send refresh (tick w))
    /\ forall (w1 : world) (d1 : session) (status_code : Z) (data a rt x : json)
              (expires_at : float),
         heap (st w1) !! r = Some d1 ->
         getitem data "access_token" = inr a ->
         getitem data "refresh_token" = inr rt ->
         getitem data "expires_in" = inr x ->
         float_add (clock e (ticks w1)) x = inr expires_at ->
         let call := api_call "/user" a "GET" None in
         exists k',
           advance e (k (HttpResponse status_code (Some data))) w1
           = (Parked (length (sent w1)) call k',
              World (Store (<[r := Session a rt expires_at (clientId d1) (clientSecret d1)]>
                             (heap (st w1)))
                           (<[session_id := r]> (user_tokens (st w1))))
                    (S (ticks w1)) (drawn w1) (sent w1 ++ [call])).
Proof.
  intros Hsid Href Hnow refresh.
  unfold get_user_info. cbn [advance]. rewrite Hsid. cbn [bind advance].
  change (st (tick w)) with (st w). rewrite Href. cbn [bind]. rewrite Hnow.
  unfold refresh_session, refresh_access_token. cbn [bind advance]. fold refresh.
  eexists. split; [reflexivity|].
  intros w1 d1 status_code data a rt x expires_at Href1 Ha Hrt Hx Hadd.
  pose proof (lookup_lt_Some _ _ _ Href1) as Hlt.
  cbv beta. cbn [bind response_json]. unfold token_payload. rewrite Ha, Hrt, Hx.
  cbn [try bind advance tok_accessToken tok_refreshToken tok_expiresIn].
  rewrite Href1.
  cbn [try bind advance with_store tick st heap user_tokens ticks drawn sent].
  rewrite list_lookup_insert_eq by exact Hlt.
  cbn [try bind advance with_store tick st heap user_tokens ticks drawn sent].
  rewrite Hadd.
  cbn [try bind advance with_store tick st heap user_tokens ticks drawn sent].
  rewrite list_lookup_insert_eq by (rewrite !length_insert; exact Hlt).
  cbn [try bind advance with_store tick st heap user_tokens ticks drawn sent].
  rewrite !list_insert_insert_eq.
  rewrite list_lookup_insert_eq by exact Hlt.
  unfold rd_api_request.
  cbn [try bind advance with_store tick st heap user_tokens ticks drawn sent
       accessToken set_accessToken set_refreshToken set_expiresAt].
  eexists. reflexivity.
Qed.

(** [get_user_info] up to its first [await] while the token is good: the
    handler parks at the [/user] call with the stored token. *)
Lemma advance_get_user_info_unexpired (e : env) (w : world) (session_id : string)
    (r : ref) (d : session) :
  user_tokens (st w) !! session_id = Some r ->
  heap (st w) !! r = Some d ->
  SFltb (clock e (ticks w)) (expiresAt d) = true ->
  let call := api_call "/user" (accessToken d) "GET" None in
  advance e (get_user_info session_id) w
  = (Parked (length (sent w)) call user_reply, send call (tick w)).
Proof.
  intros Hsid Href Hnow call.
  assert (Hcmp : float_ge (clock e (ticks w)) (expiresAt d) = false).
  { unfold float_ge. unfold SFltb in Hnow.
    destruct (SFcompare (clock e (ticks w)) (expiresAt d)) as [[| |]|];
      solve [reflexivity | discriminate Hnow]. }
  unfold get_user_info. cbn [advance]. rewrite Hsid. cbn [bind advance].
  change (st (tick w)) with (st w). rewrite Href. cbn [bind]. rewrite Hcmp.
  cbn [bind advance]. change (st (tick w)) with (st w). rewrite Href.
  reflexivity.
Qed.

(** Once the [/user] call is answered the handler is done, and does
    nothing more to the world. *)
Lemma advance_user_reply (e : env) (res : http_result) (w : world) :
  exists o, advance e (user_reply res) w = (Done o, w).
Proof.
  unfold user_reply.
  destruct res as [status_code [data|]|]; cbn [api_result];
    try (eexists; reflexivity).
  - destruct (status_code =? 204)%Z; [eexists; reflexivity|].
    cbn [response_json bind].
    destruct (400 <=? status_code)%Z; [|eexists; reflexivity].
    destruct data; cbn [get_default try bind]; try (eexists; reflexivity).
    destruct (assoc "error" fields); cbn [try bind];
      destruct (assoc "error_code" fields); eexists; reflexivity.
  - destruct (status_code =? 204)%Z; eexists; reflexivity.
Qed.

(** The first two turns of a [get_user_info] handler for an expired
    session, with nothing in between: the refresh call, then, on a
    well-formed answer, the record replaced and the handler parked at the
    [/user] call with the new token. *)
Lemma refresh_in_two_turns (e : env) (w : world) (session_id : string) (r : ref)
    (d : session) (status_code : Z) (data a rt x : json) (expires_at : float) :
  user_tokens (st w) !! session_id = Some r ->
  heap (st w) !! r = Some d ->
  float_ge (clock e (ticks w)) (expiresAt d) = true ->
  let refresh := token_call (clientId d) (clientSecret d) (refreshToken d) in
  server e (length (sent w)) refresh = HttpResponse status_code (Some data) ->
  getitem data "access_token" = inr a ->
  getitem data "refresh_token" = inr rt ->
  getitem data "expires_in" = inr x ->
  float_add (clock e (S (ticks w))) x = inr expires_at ->
  let d' := Session a rt expires_at (clientId d) (clientSecret d) in
  let call := api_call "/user" a "GET" None in
  resume e (fst (advance e (get_user_info session_id) w))
    (snd (advance e (get_user_info session_id) w))
  = (Parked (S (length (sent w))) call user_reply,
     World (Store (<[r := d']> (heap (st w))) (user_tokens (st w)))
           (S (S (ticks w))) (drawn w) (sent w ++ [refresh; call])).
Proof.
  intros Hsid Href Hnow refresh Hres Ha Hrt Hx Hadd d' call.
  pose proof (lookup_lt_Some _ _ _ Href) as Hlt.
  unfold get_user_info. cbn [advance]. rewrite Hsid. cbn [bind advance].
  change (st (tick w)) with (st w). rewrite Href. cbn [bind]. rewrite Hnow.
  unfold refresh_session, refresh_access_token. cbn [bind advance fst snd resume].
  fold refresh. change (sent (tick w)) with (sent w). rewrite Hres.
  cbn [bind response_json]. unfold token_payload. rewrite Ha, Hrt, Hx.
  cbn [try bind advance tok_accessToken tok_refreshToken tok_expiresIn].
  unfold send, tick. cbn [st ticks drawn sent]. rewrite Href.
  cbn [try bind advance with_store st heap user_tokens ticks drawn sent].
  rewrite list_lookup_insert_eq by exact Hlt.
  cbn [try bind advance with_store st heap user_tokens ticks drawn sent].
  rewrite Hadd.
  cbn [try bind advance with_store st heap user_tokens ticks drawn sent].
  rewrite list_lookup_insert_eq by (rewrite !length_insert; exact Hlt).
  cbn [try bind advance with_store st heap user_tokens ticks drawn sent].
  rewrite !list_insert_insert_eq.
  rewrite list_lookup_insert_eq by exact Hlt.
  unfold rd_api_request.
  cbn [try bind advance with_store st heap user_tokens ticks drawn sent
       accessToken set_accessToken set_refreshToken set_expiresAt].
  rewrite (insert_id (user_tokens (st w)) session_id r Hsid).
  unfold send, with_store. cbn [st ticks drawn sent].
  rewrite length_app, Nat.add_1_r, <- app_assoc. reflexivity.
Qed.

Lemma unstarted_insert {A : Type} (pool : list (thread A)) (i : nat) (th th' : thread A) :
  pool !! i = Some th ->
  (unstarted (<[i := th']> pool) + unstarted [th] = unstarted pool + unstarted [th'])%nat.
Proof.
  revert i. induction pool as [|x pool IH]; intros [|i] Hth; try discriminate.
  - injection Hth as ->. simpl. destruct th, th'; simpl; lia.
  - simpl in Hth. specialize (IH i Hth). simpl.
    destruct x; simpl in *; lia.
Qed.

Lemma unstarted_repeat {A : Type} (t : task A) (n : nat) :
  unstarted (repeat (Ready t) n) = n.
Proof. induction n as [|n IH]; [reflexivity|]. simpl. now rewrite IH. Qed.

(** Handlers of [get_user_info] that start once the record is fresh: under
    any schedule the store stays as it is and the only requests are [/user]
    calls with the stored token, one for each handler that has started. *)
Lemma turns_after_refresh (e : env) (session_id : string) (r : ref) (d : session)
    (fresh : store) (sent0 : list request) (t0 n total : nat) (schedule : list nat) :
  user_tokens fresh !! session_id = Some r ->
  heap fresh !! r = Some d ->
  (forall i, (i < n)%nat -> SFltb (clock e (t0 + i)) (expiresAt d) = true) ->
  let call := api_call "/user" (accessToken d) "GET" None in
  forall (pool : list (thread text)) (w : world) (m : nat),
  st w = fresh ->
  Forall (fun th => th = Ready (get_user_info session_id)
                    \/ (exists j, th = Parked j call user_reply)
                    \/ (exists o, th = Done o)) pool ->
  sent w = sent0 ++ repeat call m ->
  (m + unstarted pool = total)%nat ->
  (ticks w + unstarted pool = t0 + n)%nat ->
  (unstarted pool <= n)%nat ->
  st (snd (interleave e schedule (pool, w))) = fresh
  /\ exists m', (m' <= total)%nat
                /\ sent (snd (interleave e schedule (pool, w))) = sent0 ++ repeat call m'.
Proof.
  intros Hsid Href Hgood call.
  induction schedule as [|i schedule IH]; intros pool w m Hst Hpool Hsent Hm Hticks Hle.
  - cbn [interleave fold_left snd]. split; [exact Hst|]. exists m. split; [lia|exact Hsent].
  - change (interleave e (i :: schedule) (pool, w))
      with (interleave e schedule (turn e i (pool, w))).
    unfold turn. cbn [fst snd].
    destruct (pool !! i) as [th|] eqn:Hth; [|now apply (IH pool w m)].
    pose proof (Forall_lookup_1 _ _ _ _ Hpool Hth) as [->|[[j ->]|[o ->]]].
    + pose proof (unstarted_insert pool i _ (Parked (length (sent w)) call user_reply) Hth)
        as Hcount.
      cbn [unstarted] in Hcount.
      assert (Hnow : SFltb (clock e (ticks w)) (expiresAt d) = true).
      { replace (ticks w) with (t0 + (n - unstarted pool))%nat by lia.
        apply Hgood. lia. }
      cbn [resume].
      rewrite (advance_get_user_info_unexpired e w session_id r d); try assumption;
        [|now rewrite Hst|now rewrite Hst].
      fold call.
      apply (IH _ _ (S m)).
      * exact Hst.
      * apply Forall_insert; [exact Hpool|]. right. left. eauto.
      * cbn [send tick sent]. rewrite Hsent, <- app_assoc. f_equal.
        cbn [repeat]. symmetry. apply repeat_cons.
      * lia.
      * cbn [send tick ticks]. lia.
      * lia.
    + pose proof (unstarted_insert pool i _ (Done (Returned (Dumps JNull))) Hth) as Hcount.
      cbn [resume].
      destruct (advance_user_reply e (server e j call) w) as [o Ho]. rewrite Ho.
      assert (Hsame : unstarted (<[i := Done o]> pool) = unstarted pool).
      { pose proof (unstarted_insert pool i _ (Done o) Hth) as H. cbn [unstarted] in H. lia. }
      apply (IH _ _ m); try assumption; try (rewrite Hsame; assumption).
      apply Forall_insert; [exact Hpool|]. right. right. eauto.
    + cbn [resume].
      assert (Hsame : unstarted (<[i := Done o]> pool) = unstarted pool).
      { pose proof (unstarted_insert pool i _ (Done o) Hth) as H. cbn [unstarted] in H. lia. }
      apply (IH _ _ m); try assumption; try (rewrite Hsame; assumption).
      apply Forall_insert; [exact Hpool|]. right. right. eauto.
Qed.

Lemma lookup_repeat_lt {A : Type} (x : A) (n i : nat) :
  (i < n)%nat -> repeat x n !! i = Some x.
Proof.
  revert i. induction n as [|n IH]; intros i Hi; [lia|].
  destruct i as [|i]; [reflexivity|]. cbn [repeat]. apply IH. lia.
Qed.

Lemma refresh_calls_repeat_api_call (endpoint : string) (access_token : json)
    (method : string) (body : option form) (m : nat) :
  refresh_calls (repeat (api_call endpoint access_token method body) m) = 0%nat.
Proof.
  induction m as [|m IH]; [reflexivity|].
  change (repeat ?c (S m)) with ([c] ++ repeat c m).
  now rewrite refresh_calls_app, IH, refresh_calls_api_call.
Qed.

(** C9, as the code has it.  [get_user_info] takes no lock, so the one
    refresh is not guaranteed; it holds under this condition.  Of [n + 1]
    concurrent [get_user_info] handlers for an expired session, let one run
    its first two turns, up to the delivery of a well-formed refresh answer,
    before any other handler starts.  Then under every further interleaving
    of all handlers, and as long as the clock stays below the new
    [expiresAt] when the others start, exactly one refresh call is posted,
    every [/user] call carries the new access token, and the record holds
    the new tokens. *)
Theorem one_refresh_unless_overlapped (e : env) (w : world) (session_id : string)
    (r : ref) (d : session) (status_code : Z) (data a rt x : json)
    (expires_at : float) (n first : nat) (rest : list nat) :
  user_tokens (st w) !! session_id = Some r ->
  heap (st w) !! r = Some d ->
  float_ge (clock e (ticks w)) (expiresAt d) = true ->
  let refresh := token_call (clientId d) (clientSecret d) (refreshToken d) in
  server e (length (sent w)) refresh = HttpResponse status_code (Some data) ->
  getitem data "access_token" = inr a ->
  getitem data "refresh_token" = inr rt ->
  getitem data "expires_in" = inr x ->
  float_add (clock e (S (ticks w))) x = inr expires_at ->
  (forall i, (i < n)%nat -> SFltb (clock e (S (S (ticks w)) + i)) expires_at = true) ->
  (first <= n)%nat ->
  let d' := Session a rt expires_at (clientId d) (clientSecret d) in
  let call := api_call "/user" a "GET" None in
  let pool := repeat (Ready (get_user_info session_id)) (S n) in
  let final := snd (interleave e (first :: first :: rest) (pool, w)) in
  refresh_calls (sent final) = S (refresh_calls (sent w))
  /\ (exists m, (m <= S n)%nat /\ sent final = sent w ++ refresh :: repeat call m)
  /\ record_of (st final) session_id = Some d'.
Proof.
  intros Hsid Href Hnow refresh Hres Ha Hrt Hx Hadd Hgood Hfirst d' call pool final.
  pose proof (lookup_lt_Some _ _ _ Href) as Hlt.
  assert (Hth : pool !! first = Some (Ready (get_user_info session_id))).
  { apply lookup_repeat_lt. lia. }
  pose proof (refresh_in_two_turns e w session_id r d status_code data a rt x expires_at
                Hsid Href Hnow Hres Ha Hrt Hx Hadd) as Htwo.
  cbv zeta in Htwo. fold refresh d' call in Htwo.
  set (fresh := Store (<[r := d']> (heap (st w))) (user_tokens (st w))) in *.
  set (w2 := World fresh (S (S (ticks w))) (drawn w) (sent w ++ [refresh; call])) in *.
  set (pool2 := <[first := Parked (S (length (sent w))) call user_reply]> pool).
  assert (Hturns : interleave e (first :: first :: rest) (pool, w)
                   = interleave e rest (pool2, w2)).
  { change (interleave e (first :: first :: rest) (pool, w))
      with (interleave e rest (turn e first (turn e first (pool, w)))).
    f_equal. unfold turn at 2. cbn [fst snd]. rewrite Hth. cbn [resume].
    destruct (advance e (get_user_info session_id) w) as [th1 w1] eqn:Hadv.
    cbn [fst snd] in Htwo. unfold turn. cbn [fst snd].
    rewrite list_lookup_insert_eq by exact (lookup_lt_Some _ _ _ Hth).
    rewrite Htwo. unfold pool2. now rewrite list_insert_insert_eq. }
  assert (Hcount : unstarted pool2 = n).
  { pose proof (unstarted_insert pool first _ (Parked (S (length (sent w))) call user_reply)
                  Hth) as H.
    fold pool2 in H. cbn [unstarted] in H.
    assert (Hall : unstarted pool = S n) by apply unstarted_repeat.
    lia. }
  destruct (turns_after_refresh e session_id r d' fresh (sent w ++ [refresh])
              (S (S (ticks w))) n (S n) rest) with (pool := pool2) (w := w2) (m := 1%nat)
    as (Hst & m & Hm & Hsent).
  - exact Hsid.
  - cbn [fresh heap]. apply list_lookup_insert_eq. exact Hlt.
  - exact Hgood.
  - reflexivity.
  - unfold pool2. apply Forall_insert.
    + apply Forall_forall. intros th Hin. left.
      apply list_elem_of_In in Hin. exact (repeat_spec _ _ _ Hin).
    + right. left. eauto.
  - cbn [w2 sent repeat]. now rewrite <- app_assoc.
  - lia.
  - cbn [w2 ticks]. lia.
  - lia.
  - unfold final. rewrite Hturns. cbn [accessToken d'] in Hsent. fold call in Hsent.
    rewrite Hst, Hsent, <- app_assoc. cbn [app].
    split; [|split].
    + change (refresh :: repeat call m) with ([refresh] ++ repeat call m).
      rewrite !refresh_calls_app. unfold call.
      rewrite refresh_calls_repeat_api_call.
      change (refresh_calls [refresh]) with 1%nat. lia.
    + exists m. split; [exact Hm|reflexivity].
    + unfold record_of. cbn [fresh user_tokens heap]. rewrite Hsid.
      apply list_lookup_insert_eq. exact Hlt.
Qed.

(** Two handlers that overlap at their [/user] calls, not at the refresh. *)
Lemma one_refresh_unless_overlapped_witness :
  let pool := repeat (Ready (get_user_info ALICE_ID)) 2 in
  let final := snd (interleave RACE [0; 0; 1; 0; 1]%nat (pool, ONE_SESSION)) in
  refresh_calls (sent final) = 1%nat.
Proof.
  intros pool final.
  apply (one_refresh_unless_overlapped RACE ONE_SESSION ALICE_ID 0%nat ALICE 200
           (JObj [("access_token", JStr "T2"); ("refresh_token", JStr "R2");
                  ("expires_in", JInt 3600); ("token_type", JStr "Bearer")])
           (JStr "T2") (JStr "R2") (JInt 3600) (float_of_Z 5601) 1 0 [1; 0; 1]%nat);
    try reflexivity.
  - intros i Hi. assert (i = 0%nat) as -> by lia. reflexivity.
  - lia.
Defined.

(** * Further properties of the module *)

(** ** [oauth_check] beyond the first poll *)

(** X1.  When the poll has handed out the client credentials but the token
    endpoint answers the exchange with any status other than 200,
    [oauth_check] reports that the authorization is in progress.  It has
    sent the poll and the exchange (the device code posted as [code], with
    the credentials just issued), and nothing else has changed: no session
    is stored, the clock and the random source are not read. *)
Theorem check_auth_in_progress (e : env) (w : world) (device_code : string)
    (creds client_id client_secret : json) (status_code : Z) (body : option json) :
  server e (length (sent w)) (credentials_call device_code)
    = HttpResponse 200 (Some creds) ->
  getitem creds "client_id" = inr client_id ->
  getitem creds "client_secret" = inr client_secret ->
  server e (S (length (sent w))) (token_call client_id client_secret (JStr device_code))
    = HttpResponse status_code body ->
  status_code <> 200 ->
  run e (oauth_check device_code) w
  = (Returned (Dumps PENDING_IN_PROGRESS),
     send (token_call client_id client_secret (JStr device_code))
       (send (credentials_call device_code) w))
  /\ getitem PENDING_IN_PROGRESS "session_id" = inl (KeyError "session_id").
Proof.
  intros Hpoll Hid Hsecret Htok Hstatus. split; [|reflexivity].
  unfold oauth_check, get_device_credentials. cbn [bind run]. rewrite Hpoll.
  cbn [Z.eqb Pos.eqb negb response_json bind]. rewrite Hid. cbn [try bind].
  rewrite Hsecret. cbn [try bind cred_clientId cred_clientSecret].
  unfold get_access_token. cbn [bind run].
  unfold send at 1. cbn [sent]. rewrite length_app, Nat.add_1_r, Htok.
  destruct (Z.eqb_spec status_code 200) as [?|_]; [contradiction|].
  reflexivity.
Qed.

Lemma check_auth_in_progress_witness :
  let e := Env (fun _ => float_of_Z 0) (fun _ => x00)
             (fun n _ => match n with
                         | 0%nat => HttpResponse 200 (credentials_body "idA" "secretA")
                         | _ => HttpResponse 403 None
                         end) in
  run e (oauth_check "dcA") START
  = (Returned (Dumps PENDING_IN_PROGRESS),
     send (token_call (JStr "idA") (JStr "secretA") (JStr "dcA"))
       (send (credentials_call "dcA") START)).
Proof.
  intros e.
  apply (check_auth_in_progress e START "dcA"
           (JObj [("client_id", JStr "idA"); ("client_secret", JStr "secretA")])
           (JStr "idA") (JStr "secretA") 403 None);
    [reflexivity|reflexivity|reflexivity|reflexivity|lia].
Defined.

(** One step of a case analysis on what the server answered. *)
Ltac split_answer :=
  match goal with
  | |- context [match server ?e ?n ?r with _ => _ end] =>
      destruct (server e n r) as [? [?|]|]
  | |- context [if negb (?s =? 200)%Z then _ else _] => destruct (s =? 200)%Z
  | |- context [getitem ?d ?k] => destruct (getitem d k)
  | |- context [py_int ?x] => destruct (py_int x)
  | |- context [float_add ?x ?v] => destruct (float_add x v)
  end; cbn [negb response_json try bind run].

(** X2.  [oauth_check] stores a session only when it returns the
    authorized status.  On every other outcome (pending, a transport
    failure, a body that is not JSON, a missing field, an [expires_in] that
    is not a number) the token store is exactly as before. *)
Theorem check_auth_stores_only_when_authorized (e : env) (w : world)
    (device_code : string) :
  let result := run e (oauth_check device_code) w in
  (exists session_id expires_in d,
      fst result = Returned (Dumps (authorized session_id expires_in))
      /\ st (snd result)
         = Store (heap (st w) ++ [d])
                 (<[session_id := length (heap (st w))]> (user_tokens (st w))))
  \/ ((forall session_id expires_in,
         fst result <> Returned (Dumps (authorized session_id expires_in)))
      /\ st (snd result) = st w).
Proof.
  cbv zeta. unfold oauth_check, get_device_credentials, get_access_token, token_payload.
  cbn [bind run].
  repeat (split_answer;
          cbn [cred_clientId cred_clientSecret tok_accessToken tok_refreshToken
               tok_expiresIn];
          try solve [right; split; [intros ? ?; discriminate|reflexivity]]).
  left. eexists _, _, _. split; reflexivity.
Qed.

(** ** [oauth_start] *)

(** X3.  Whatever the authorization server answers, and also when it does
    not answer, [oauth_start] sends exactly one request, the GET of
    [/device/code] for the built-in client id with [new_credentials=yes];
    it does not touch the token store, the clock or the random source. *)
Theorem oauth_start_one_request (e : env) (w : world) :
  snd (run e oauth_start w) = send device_code_call w
  /\ device_code_call
     = Request "GET"
         "https://api.real-debrid.com/oauth/v2/device/code?client_id=X245A4XAIBGVM&new_credentials=yes"
         [] None.
Proof.
  split; [|reflexivity].
  unfold oauth_start, initiate_device_auth. cbn [bind run].
  destruct (server e (length (sent w)) device_code_call) as [status_code [data|]|];
    cbn [response_json bind run snd]; try reflexivity.
  repeat (match goal with
          | |- context [getitem ?d ?k] => destruct (getitem d k)
          end; cbn [try bind run snd]; try reflexivity).
Qed.

(** X4.  [oauth_start] does not look at the status code: an answer that
    holds the five fields is accepted under any status.  The result carries
    [device_code], [user_code], [verification_url] and [expires_in] as
    sent, and not [interval]; when the URL and the user code are strings
    the message reads "Go to <url> and enter code: <code>". *)
Theorem oauth_start_ignores_status (e : env) (w : world) (status_code : Z)
    (data device_code user_code verification_url expires_in interval : json) :
  server e (length (sent w)) device_code_call = HttpResponse status_code (Some data) ->
  getitem data "device_code" = inr device_code ->
  getitem data "user_code" = inr user_code ->
  getitem data "verification_url" = inr verification_url ->
  getitem data "expires_in" = inr expires_in ->
  getitem data "interval" = inr interval ->
  fst (run e oauth_start w)
  = Returned (StartResult device_code user_code verification_url expires_in
                [Lit "Go to "; Val verification_url;
                 Lit " and enter code: "; Val user_code]
                START_INSTRUCTIONS)
  /\ (forall url code, verification_url = JStr url -> user_code = JStr code ->
        render [Lit "Go to "; Val verification_url;
                Lit " and enter code: "; Val user_code]
        = Some ("Go to " +:+ url +:+ " and enter code: " +:+ code)).
Proof.
  intros Hres Hdc Huc Hvu Hei Hiv. split.
  - unfold oauth_start, initiate_device_auth. cbn [bind run]. rewrite Hres.
    cbn [response_json bind]. rewrite Hdc. cbn [try bind]. rewrite Huc. cbn [try bind].
    rewrite Hvu. cbn [try bind]. rewrite Hei. cbn [try bind]. rewrite Hiv. reflexivity.
  - intros url code -> ->. cbn [render py_str option_map].
    replace (code +:+ "") with code; [reflexivity|].
    clear. induction code as [|c code IH]; [reflexivity|].
    change (String c code +:+ "") with (String c (code +:+ "")). now rewrite <- IH.
Qed.

(** The authorization server answers the start of the flow. *)
Lemma oauth_start_ignores_status_witness :
  let data := JObj [("device_code", JStr "DC"); ("user_code", JStr "ABCD1234");
                    ("interval", JInt 5); ("expires_in", JInt 1800);
                    ("verification_url", JStr "https://real-debrid.com/device")] in
  let e := Env (fun _ => float_of_Z 0) (fun _ => x00) (fun _ _ => HttpResponse 202 (Some data)) in
  fst (run e oauth_start START)
  = Returned (StartResult (JStr "DC") (JStr "ABCD1234")
                (JStr "https://real-debrid.com/device") (JInt 1800)
                [Lit "Go to "; Val (JStr "https://real-debrid.com/device");
                 Lit " and enter code: "; Val (JStr "ABCD1234")]
                START_INSTRUCTIONS).
Proof.
  intros data e.
  apply (oauth_start_ignores_status e START 202 data (JStr "DC") (JStr "ABCD1234")
           (JStr "https://real-debrid.com/device") (JInt 1800) (JInt 5));
    reflexivity.
Defined.

(** X5.  [oauth_start] needs [interval] in the answer although it never
    returns it: an answer with the four fields it returns but without
    [interval] raises [KeyError('interval')]. *)
Theorem oauth_start_needs_interval (e : env) (w : world) (status_code : Z)
    (fields : list (string * json)) :
  server e (length (sent w)) device_code_call
    = HttpResponse status_code (Some (JObj fields)) ->
  is_Some (assoc "device_code" fields) ->
  is_Some (assoc "user_code" fields) ->
  is_Some (assoc "verification_url" fields) ->
  is_Some (assoc "expires_in" fields) ->
  assoc "interval" fields = None ->
  fst (run e oauth_start w) = Raised (KeyError "interval").
Proof.
  intros Hres [dc Hdc] [uc Huc] [vu Hvu] [ei Hei] Hiv.
  unfold oauth_start, initiate_device_auth. cbn [bind run]. rewrite Hres.
  cbn [response_json bind getitem]. rewrite Hdc. cbn [try bind]. rewrite Huc.
  cbn [try bind]. rewrite Hvu. cbn [try bind]. rewrite Hei. cbn [try bind].
  rewrite Hiv. reflexivity.
Qed.

Lemma oauth_start_needs_interval_witness :
  let fields := [("device_code", JStr "DC"); ("user_code", JStr "ABCD1234");
                 ("expires_in", JInt 1800);
                 ("verification_url", JStr "https://real-debrid.com/device")] in
  let e := Env (fun _ => float_of_Z 0) (fun _ => x00)
             (fun _ _ => HttpResponse 200 (Some (JObj fields))) in
  fst (run e oauth_start START) = Raised (KeyError "interval").
Proof.
  intros fields e.
  apply (oauth_start_needs_interval e START 200 fields);
    solve [reflexivity | eexists; reflexivity].
Defined.

(** ** [rd_api_request] on the answers the claims leave out *)

(** X6.  [rd_api_request] takes every status below 400 other than 204 for a
    success: a redirect or an informational answer with a JSON body is
    returned to the caller like a 200. *)
Theorem api_request_below_400 (e : env) (w : world) (endpoint : string)
    (access_token : json) (method : string) (body : option form)
    (status_code : Z) (data : json) :
  server e (length (sent w)) (api_call endpoint access_token method body)
    = HttpResponse status_code (Some data) ->
  status_code < 400 ->
  status_code <> 204 ->
  run e (rd_api_request endpoint access_token method body) w
  = (Returned data, send (api_call endpoint access_token method body) w).
Proof.
  intros Hres Hlt Hne. unfold rd_api_request. cbn [run]. rewrite Hres.
  cbn [api_result].
  destruct (Z.eqb_spec status_code 204) as [?|_]; [contradiction|].
  cbn [response_json bind].
  destruct (Z.leb_spec 400 status_code) as [?|_]; [lia|]. reflexivity.
Qed.

Lemma api_request_below_400_witness :
  let moved := JObj [("location", JStr "https://elsewhere.example/")] in
  let e := Env (fun _ => float_of_Z 0) (fun _ => x00) (fun _ _ => HttpResponse 302 (Some moved)) in
  run e (rd_api_request "/user" (JStr "T1") "GET" None) START
  = (Returned moved, send (api_call "/user" (JStr "T1") "GET" None) START).
Proof.
  intros moved e.
  apply (api_request_below_400 e START "/user" (JStr "T1") "GET" None 302 moved);
    [reflexivity|lia|lia].
Defined.

(** X7.  What [rd_api_request] raises when the answer cannot be used.  No
    answer at all raises the transport error.  For every status other than
    204, a 200 included, a body that is not JSON raises [JSONDecodeError].
    For a status of 400 or more, a JSON body that is not an object raises
    [AttributeError], and an object gives the API error in which a missing
    [error] reads "Unknown error" and a missing [error_code] reads "N/A",
    each on its own. *)
Theorem api_request_unusable_answer (e : env) (w : world) (endpoint : string)
    (access_token : json) (method : string) (body : option form) :
  let call := api_call endpoint access_token method body in
  let result := fst (run e (rd_api_request endpoint access_token method body) w) in
  (server e (length (sent w)) call = HttpError -> result = Raised TransportError)
  /\ (forall status_code, server e (length (sent w)) call = HttpResponse status_code None ->
        status_code <> 204 -> result = Raised JSONDecodeError)
  /\ (forall status_code data,
        server e (length (sent w)) call = HttpResponse status_code (Some data) ->
        400 <= status_code ->
        (forall fields, data <> JObj fields) ->
        result = Raised AttributeError)
  /\ (forall status_code fields,
        server e (length (sent w)) call = HttpResponse status_code (Some (JObj fields)) ->
        400 <= status_code ->
        result = Raised (api_error (default (JStr "Unknown error") (assoc "error" fields))
                           (default (JStr "N/A") (assoc "error_code" fields)))).
Proof.
  intros call result. unfold result, rd_api_request. cbn [run]. fold call.
  repeat split.
  - intros ->. reflexivity.
  - intros status_code -> Hne. cbn [api_result].
    destruct (Z.eqb_spec status_code 204) as [?|_]; [contradiction|]. reflexivity.
  - intros status_code data -> Hge Hobj. cbn [api_result].
    destruct (Z.eqb_spec status_code 204) as [?|_]; [lia|].
    cbn [response_json bind].
    destruct (Z.leb_spec 400 status_code) as [_|?]; [|lia].
    destruct data; try reflexivity. now destruct (Hobj fields).
  - intros status_code fields -> Hge. cbn [api_result].
    destruct (Z.eqb_spec status_code 204) as [?|_]; [lia|].
    cbn [response_json bind].
    destruct (Z.leb_spec 400 status_code) as [_|?]; [|lia].
    cbn [get_default].
    destruct (assoc "error" fields), (assoc "error_code" fields); reflexivity.
Qed.

(** A gateway answers 502 with an HTML page. *)
Lemma api_request_unusable_answer_witness :
  let e := Env (fun _ => float_of_Z 0) (fun _ => x00) (fun _ _ => HttpResponse 502 None) in
  fst (run e (rd_api_request "/user" (JStr "T1") "GET" None) START)
  = Raised JSONDecodeError.
Proof.
  intros e.
  pose proof (api_request_unusable_answer e START "/user" (JStr "T1") "GET" None)
    as (_ & H & _).
  apply (H 502); [reflexivity|lia].
Defined.

(** ** The three tools without an expiry check *)

(** X8.  Whatever the store holds and whatever the API answers,
    [unrestrict_link], [list_torrents] and [add_magnet] never change the
    token store and never read the clock or the random source: the world
    after the call is the world before, or differs from it by the one API
    request. *)
Theorem plain_tools_leave_store (e : env) (w : world) (session_id link magnet : string)
    (password filter : option string) :
  let sends_one (t : task text) (endpoint method : string) (body : option form) :=
    snd (run e t w) = w
    \/ exists access_token,
         snd (run e t w) = send (api_call endpoint access_token method body) w in
  sends_one (unrestrict_link session_id link password) "/unrestrict/link" "POST"
    (Some (unrestrict_body link password))
  /\ sends_one (list_torrents session_id filter) (torrents_endpoint filter) "GET" None
  /\ sends_one (add_magnet session_id magnet) "/torrents/addMagnet" "POST"
       (Some [("magnet", JStr magnet)]).
Proof.
  cbv zeta.
  repeat split;
    cbv beta delta [unrestrict_link list_torrents add_magnet]; cbn [run];
    (destruct (user_tokens (st w) !! session_id) as [r|]; [|left; reflexivity]);
    cbn [run];
    (destruct (heap (st w) !! r) as [d|]; [|left; reflexivity]);
    right; exists (accessToken d); rewrite run_api_request; reflexivity.
Qed.

(** ** The filter of [list_torrents] *)

(** X9.  [list_torrents] with the empty string as filter is the same task
    as with no filter, and asks for [/torrents]; any other filter is
    appended to the path as it is, without escaping. *)
Theorem empty_filter_is_omitted (session_id : string) :
  list_torrents session_id (Some "") = list_torrents session_id None
  /\ torrents_endpoint (Some "") = "/torrents"
  /\ torrents_endpoint None = "/torrents"
  /\ (forall c rest,
        torrents_endpoint (Some (String c rest))
        = "/torrents?filter=" +:+ String c rest).
Proof.
  repeat split; reflexivity.
Qed.

(** ** What no handler does to the store, in any interleaving *)

Lemma tame_mono {A : Type} (n : nat) (t : task A) :
  tame n t -> forall m, (n <= m)%nat -> tame m t.
Proof.
  induction 1 as [n a|n x|n r k _ IH|n k _ IH|n j k _ IH|n sid k _ IHnone _ IHsome
                 |n sid r k Hr _ IH|n s k _ IH|n r k Hr _ IH|n r f k Hr Hf _ IH];
    intros m Hm.
  - constructor.
  - constructor.
  - constructor. intros x. now apply IH.
  - constructor. intros x. now apply IH.
  - constructor. intros x. now apply IH.
  - constructor; [now apply IHnone|].
    intros m' r Hm' Hr. apply (IHsome m' r); [lia|exact Hr|lia].
  - constructor; [lia|now apply IH].
  - constructor. intros m' Hm'. apply (IH m'); lia.
  - constructor; [lia|]. intros s. now apply IH.
  - constructor; [lia|exact Hf|now apply IH].
Qed.

Lemma tame_bind {A B : Type} (n : nat) (m : task A) (f : A -> task B) :
  tame n m -> (forall a n', (n <= n')%nat -> tame n' (f a)) -> tame n (bind m f).
Proof.
  induction 1 as [n a|n x|n r k _ IH|n k _ IH|n j k _ IH|n sid k _ IHnone _ IHsome
                 |n sid r k Hr _ IH|n s k _ IH|n r k Hr _ IH|n r g k Hr Hg _ IH];
    intros Hf; cbn [bind].
  - now apply Hf.
  - constructor.
  - constructor. intros x. now apply IH.
  - constructor. intros x. now apply IH.
  - constructor. intros x. now apply IH.
  - constructor; [now apply IHnone|].
    intros m' r Hm' Hr. apply (IHsome m' r Hm' Hr).
    intros a n' Hn'. apply Hf. lia.
  - constructor; [exact Hr|now apply IH].
  - constructor. intros m' Hm'. apply (IH m' Hm').
    intros a n' Hn'. apply Hf. lia.
  - constructor; [exact Hr|]. intros s. now apply IH.
  - constructor; [exact Hr|exact Hg|now apply IH].
Qed.

Lemma tame_try {A : Type} (n : nat) (x : exn + A) : tame n (try x).
Proof. destruct x; constructor. Qed.

Lemma tame_response_json (n : nat) (body : option json) : tame n (response_json body).
Proof. destruct body; constructor. Qed.

Lemma tame_token_payload (n : nat) (data : json) : tame n (token_payload data).
Proof.
  unfold token_payload.
  repeat (apply tame_bind; [apply tame_try|intros ? ? _]). constructor.
Qed.

Lemma tame_rd_api_request (n : nat) (endpoint : string) (access_token : json)
    (method : string) (body : option form) :
  tame n (rd_api_request endpoint access_token method body).
Proof.
  unfold rd_api_request. constructor. intros [status_code answer|]; cbn [api_result].
  - destruct (status_code =? 204)%Z; [constructor|].
    apply tame_bind; [apply tame_response_json|intros data ? _].
    destruct (400 <=? status_code)%Z; [|constructor].
    repeat (apply tame_bind; [apply tame_try|intros ? ? _]). constructor.
  - constructor.
Qed.

Lemma tame_refresh_access_token (n : nat) (client_id client_secret refresh_token : json) :
  tame n (refresh_access_token client_id client_secret refresh_token).
Proof.
  unfold refresh_access_token. constructor. intros [status_code answer|].
  - apply tame_bind; [apply tame_response_json|intros data ? _].
    apply tame_token_payload.
  - constructor.
Qed.

Lemma tame_oauth_start (n : nat) : tame n oauth_start.
Proof.
  unfold oauth_start, initiate_device_auth.
  apply tame_bind; [|intros; constructor].
  constructor. intros [status_code answer|]; [|constructor].
  apply tame_bind; [apply tame_response_json|intros data ? _].
  repeat (apply tame_bind; [apply tame_try|intros ? ? _]). constructor.
Qed.

Lemma tame_oauth_check (n : nat) (device_code : string) : tame n (oauth_check device_code).
Proof.
  unfold oauth_check.
  apply tame_bind.
  { unfold get_device_credentials. constructor. intros [status_code answer|]; [|constructor].
    destruct (negb (status_code =? 200)%Z); [constructor|].
    apply tame_bind; [apply tame_response_json|intros data ? _].
    repeat (apply tame_bind; [apply tame_try|intros ? ? _]). constructor. }
  intros [credentials|] n1 _; [|constructor].
  apply tame_bind.
  { unfold get_access_token. constructor. intros [status_code answer|]; [|constructor].
    destruct (negb (status_code =? 200)%Z); [constructor|].
    apply tame_bind; [apply tame_response_json|intros data ? _].
    apply tame_bind; [apply tame_token_payload|intros; constructor]. }
  intros [toks|] n2 _; [|constructor].
  constructor. intros now.
  apply tame_bind; [apply tame_try|intros seconds n3 _].
  constructor. intros rnd. constructor. intros now'.
  apply tame_bind; [apply tame_try|intros expires_at n4 _].
  constructor. intros m Hm. constructor; [lia|]. constructor.
Qed.

Lemma keeps_client_set_accessToken (v : json) : keeps_client (set_accessToken v).
Proof. intros s. split; reflexivity. Qed.

Lemma keeps_client_set_refreshToken (v : json) : keeps_client (set_refreshToken v).
Proof. intros s. split; reflexivity. Qed.

Lemma keeps_client_set_expiresAt (x : float) : keeps_client (set_expiresAt x).
Proof. intros s. split; reflexivity. Qed.

Lemma tame_get_user_info (n : nat) (session_id : string) : tame n (get_user_info session_id).
Proof.
  unfold get_user_info. constructor; [constructor|].
  intros m r Hm Hr.
  apply tame_bind.
  - constructor. intros now. constructor; [exact Hr|]. intros d.
    destruct (float_ge now (expiresAt d)); [|constructor].
    unfold refresh_session.
    apply tame_bind; [apply tame_refresh_access_token|intros new_tokens m1 Hm1].
    constructor; [lia|apply keeps_client_set_accessToken|].
    constructor; [lia|apply keeps_client_set_refreshToken|].
    constructor. intros now'.
    apply tame_bind; [apply tame_try|intros expires_at m2 Hm2].
    constructor; [lia|apply keeps_client_set_expiresAt|].
    constructor; [lia|]. constructor.
  - intros _ m1 Hm1. constructor; [lia|]. intros d.
    apply tame_bind; [apply tame_rd_api_request|intros; constructor].
Qed.

Lemma tame_plain_tools (n : nat) (session_id link magnet : string)
    (password filter : option string) :
  tame n (unrestrict_link session_id link password)
  /\ tame n (list_torrents session_id filter)
  /\ tame n (add_magnet session_id magnet).
Proof.
  repeat split;
    cbv beta delta [unrestrict_link list_torrents add_magnet];
    (apply tame_TokensGet; [apply tame_Raise|]);
    intros m r Hm Hr; (apply tame_Fetch; [exact Hr|]); intros d;
    (apply tame_bind; [apply tame_rd_api_request|intros; apply tame_Ret]).
Qed.

(** Every handler of the module is tame. *)
Lemma tame_handle (n : nat) (c : tool_call) : tame n (handle c).
Proof.
  destruct c as [|device_code|session_id|session_id link password|session_id filter
                |session_id magnet]; cbn [handle];
    (apply tame_bind; [|intros; constructor]).
  - apply tame_oauth_start.
  - apply tame_oauth_check.
  - apply tame_get_user_info.
  - apply (tame_plain_tools n session_id link "" password None).
  - apply (tame_plain_tools n session_id "" "" None filter).
  - apply (tame_plain_tools n session_id "" magnet None None).
Qed.

Lemma evolves_refl (s : store) : evolves s s.
Proof.
  repeat split; auto. intros r d Hd. exists d. auto.
Qed.

Lemma evolves_trans (s1 s2 s3 : store) : evolves s1 s2 -> evolves s2 s3 -> evolves s1 s3.
Proof.
  intros (Hlen & Hids & Hsize & Hdicts) (Hlen' & Hids' & Hsize' & Hdicts').
  repeat split.
  - lia.
  - auto.
  - lia.
  - intros r d Hd. destruct (Hdicts r d Hd) as (d1 & Hd1 & Hid & Hsecret).
    destruct (Hdicts' r d1 Hd1) as (d2 & Hd2 & Hid' & Hsecret').
    exists d2. repeat split; congruence.
Qed.

Lemma evolves_tokens_set (hp : list session) (toks : gmap string ref)
    (session_id : string) (r : ref) :
  evolves (Store hp toks) (Store hp (<[session_id := r]> toks)).
Proof.
  unfold evolves, activeSessions. cbn [heap user_tokens]. repeat split.
  - lia.
  - intros sid Hsome. destruct (decide (session_id = sid)) as [->|Hne].
    + rewrite lookup_insert_eq. eauto.
    + now rewrite lookup_insert_ne.
  - destruct (toks !! session_id) as [r0|] eqn:Hr0.
    + rewrite map_size_insert_Some; eauto.
    + rewrite map_size_insert_None by exact Hr0. lia.
  - intros r' d Hd. exists d. auto.
Qed.

Lemma evolves_new_dict (hp : list session) (toks : gmap string ref) (s : session) :
  evolves (Store hp toks) (Store (hp ++ [s]) toks).
Proof.
  unfold evolves. cbn [heap user_tokens]. repeat split.
  - rewrite length_app. lia.
  - auto.
  - reflexivity.
  - intros r d Hd. exists d. split; [|auto].
    rewrite lookup_app_l; [exact Hd|]. exact (lookup_lt_Some _ _ _ Hd).
Qed.

Lemma evolves_assign (hp : list session) (toks : gmap string ref) (r : ref)
    (s : session) (f : session -> session) :
  hp !! r = Some s -> keeps_client f ->
  evolves (Store hp toks) (Store (<[r := f s]> hp) toks).
Proof.
  intros Hs Hf. unfold evolves. cbn [heap user_tokens]. repeat split.
  - rewrite length_insert. lia.
  - auto.
  - reflexivity.
  - intros r' d Hd. destruct (decide (r = r')) as [<-|Hne].
    + exists (f s). rewrite list_lookup_insert_eq by exact (lookup_lt_Some _ _ _ Hs).
      unfold ref in *. rewrite Hs in Hd. injection Hd as <-.
      destruct (Hf s) as [Hid Hsecret]. auto.
    + exists d. rewrite list_lookup_insert_ne by exact Hne. auto.
Qed.

(** A tame task run to its next [await], from a well-formed store. *)
Lemma advance_tame {A : Type} (e : env) (n : nat) (t : task A) :
  tame n t ->
  forall w, (n <= length (heap (st w)))%nat -> store_wf (st w) ->
  store_wf (st (snd (advance e t w)))
  /\ evolves (st w) (st (snd (advance e t w)))
  /\ thread_tame (length (heap (st (snd (advance e t w))))) (fst (advance e t w)).
Proof.
  induction 1 as [n a|n x|n r k Hk _|n k _ IH|n j k _ IH|n sid k _ IHnone _ IHsome
                 |n sid r k Hr _ IH|n s k _ IH|n r k Hr _ IH|n r f k Hr Hf _ IH];
    intros w Hn Hwf; cbn [advance].
  - cbn [fst snd thread_tame]. split; [exact Hwf|split; [apply evolves_refl|discriminate]].
  - cbn [fst snd thread_tame]. split; [exact Hwf|split; [apply evolves_refl|discriminate]].
  - cbn [fst snd thread_tame]. change (st (send r w)) with (st w).
    split; [exact Hwf|split; [apply evolves_refl|]].
    intros x. exact (tame_mono n (k x) (Hk x) _ Hn).
  - exact (IH (clock e (ticks w)) (tick w) Hn Hwf).
  - exact (IH (urandom e j w) (draw j w) Hn Hwf).
  - destruct (user_tokens (st w) !! sid) as [r|] eqn:Hsid.
    + exact (IHsome (length (heap (st w))) r Hn (Hwf sid r Hsid) w (le_n _) Hwf).
    + exact (IHnone w Hn Hwf).
  - set (w1 := with_store (Store (heap (st w)) (<[sid := r]> (user_tokens (st w)))) w).
    assert (Hwf1 : store_wf (st w1)).
    { intros sid' r' Hsid'. cbn [w1 with_store st user_tokens heap] in *.
      destruct (decide (sid = sid')) as [<-|Hne].
      - rewrite lookup_insert_eq in Hsid'. injection Hsid' as <-. lia.
      - rewrite lookup_insert_ne in Hsid' by exact Hne. exact (Hwf sid' r' Hsid'). }
    destruct (IH w1 Hn Hwf1) as (Hwf2 & Hev & Hth).
    split; [exact Hwf2|split; [|exact Hth]].
    refine (evolves_trans _ _ _ _ Hev).
    destruct w as [[hp toks] ? ? ?]. apply evolves_tokens_set.
  - set (w1 := with_store (Store (heap (st w) ++ [s]) (user_tokens (st w))) w).
    assert (Hlen1 : (S (length (heap (st w))) <= length (heap (st w1)))%nat).
    { cbn [w1 with_store st heap]. rewrite length_app. cbn [length]. lia. }
    assert (Hwf1 : store_wf (st w1)).
    { intros sid' r' Hsid'. cbn [w1 with_store st user_tokens heap] in *.
      rewrite length_app. pose proof (Hwf sid' r' Hsid'). lia. }
    destruct (IH (length (heap (st w))) Hn w1 Hlen1 Hwf1) as (Hwf2 & Hev & Hth).
    split; [exact Hwf2|split; [|exact Hth]].
    refine (evolves_trans _ _ _ _ Hev).
    destruct w as [[hp toks] ? ? ?]. apply evolves_new_dict.
  - match goal with
    | |- context [match ?x with Some _ => _ | None => _ end] =>
        destruct x as [s|] eqn:Hs
    end; [|apply lookup_ge_None_1 in Hs; lia].
    exact (IH s w Hn Hwf).
  - match goal with
    | |- context [match ?x with Some _ => _ | None => _ end] =>
        destruct x as [s|] eqn:Hs
    end; [|apply lookup_ge_None_1 in Hs; lia].
    set (w1 := with_store (Store (<[r := f s]> (heap (st w))) (user_tokens (st w))) w).
    assert (Hlen1 : (n <= length (heap (st w1)))%nat).
    { cbn [w1 with_store st heap]. rewrite length_insert. exact Hn. }
    assert (Hwf1 : store_wf (st w1)).
    { intros sid' r' Hsid'. cbn [w1 with_store st user_tokens heap] in *.
      rewrite length_insert. exact (Hwf sid' r' Hsid'). }
    destruct (IH w1 Hlen1 Hwf1) as (Hwf2 & Hev & Hth).
    split; [exact Hwf2|split; [|exact Hth]].
    refine (evolves_trans _ _ _ _ Hev).
    destruct w as [[hp toks] ? ? ?]. now apply evolves_assign.
Qed.

Lemma thread_tame_mono {A : Type} (n m : nat) (th : thread A) :
  thread_tame n th -> (n <= m)%nat -> thread_tame m th.
Proof.
  destruct th as [t|j r k|o]; cbn [thread_tame]; intros H Hm.
  - exact (tame_mono n t H m Hm).
  - intros x. exact (tame_mono n (k x) (H x) m Hm).
  - exact H.
Qed.

Lemma resume_tame {A : Type} (e : env) (th : thread A) (w : world) :
  store_wf (st w) ->
  thread_tame (length (heap (st w))) th ->
  store_wf (st (snd (resume e th w)))
  /\ evolves (st w) (st (snd (resume e th w)))
  /\ thread_tame (length (heap (st (snd (resume e th w))))) (fst (resume e th w)).
Proof.
  intros Hwf Hth. destruct th as [t|j r k|o]; cbn [resume thread_tame] in *.
  - exact (advance_tame e _ t Hth w (le_n _) Hwf).
  - exact (advance_tame e _ _ (Hth (server e j r)) w (le_n _) Hwf).
  - cbn [fst snd thread_tame]. split; [exact Hwf|split; [apply evolves_refl|exact Hth]].
Qed.

Lemma turn_tame {A : Type} (e : env) (i : nat) (pw : list (thread A) * world) :
  store_wf (st (snd pw)) ->
  Forall (thread_tame (length (heap (st (snd pw))))) (fst pw) ->
  store_wf (st (snd (turn e i pw)))
  /\ evolves (st (snd pw)) (st (snd (turn e i pw)))
  /\ Forall (thread_tame (length (heap (st (snd (turn e i pw)))))) (fst (turn e i pw)).
Proof.
  intros Hwf Hpool. unfold turn.
  destruct (fst pw !! i) as [th|] eqn:Hth.
  - pose proof (Forall_lookup_1 _ _ _ _ Hpool Hth) as Htame.
    destruct (resume_tame e th (snd pw) Hwf Htame) as (Hwf' & Hev & Hth').
    destruct (resume e th (snd pw)) as [th' w']. cbn [fst snd] in *.
    split; [exact Hwf'|split; [exact Hev|]].
    apply Forall_insert; [|exact Hth'].
    destruct Hev as (Hlen & _).
    eapply Forall_impl; [exact Hpool|].
    intros th0 H0. exact (thread_tame_mono _ _ th0 H0 Hlen).
  - split; [exact Hwf|split; [apply evolves_refl|exact Hpool]].
Qed.

(** Tame handlers under any schedule: the store stays well-formed, it
    only evolves, and the handlers stay tame. *)
Lemma interleave_tame {A : Type} (e : env) (schedule : list nat)
    (pw : list (thread A) * world) :
  store_wf (st (snd pw)) ->
  Forall (thread_tame (length (heap (st (snd pw))))) (fst pw) ->
  store_wf (st (snd (interleave e schedule pw)))
  /\ evolves (st (snd pw)) (st (snd (interleave e schedule pw)))
  /\ Forall (thread_tame (length (heap (st (snd (interleave e schedule pw))))))
       (fst (interleave e schedule pw)).
Proof.
  revert pw. induction schedule as [|i schedule IH]; intros pw Hwf Hpool.
  - cbn [interleave fold_left]. split; [exact Hwf|split; [apply evolves_refl|exact Hpool]].
  - destruct (turn_tame e i pw Hwf Hpool) as (Hwf1 & Hev1 & Hpool1).
    destruct (IH (turn e i pw) Hwf1 Hpool1) as (Hwf2 & Hev2 & Hpool2).
    change (interleave e (i :: schedule) pw) with (interleave e schedule (turn e i pw)).
    split; [exact Hwf2|split; [exact (evolves_trans _ _ _ Hev1 Hev2)|exact Hpool2]].
Qed.

(** The handlers of any tool calls, not yet started, are tame. *)
Lemma handlers_tame (n : nat) (calls : list tool_call) :
  Forall (thread_tame n) (map (fun c => Ready (handle c)) calls).
Proof.
  apply Forall_forall. intros th Hin. apply list_elem_of_In, in_map_iff in Hin.
  destruct Hin as (c & <- & _). apply tame_handle.
Qed.

Lemma one_session_wf : store_wf (st ONE_SESSION).
Proof.
  intros session_id r Hr. cbn [ONE_SESSION st user_tokens heap] in *.
  apply lookup_singleton_Some in Hr as [_ <-]. cbn [length]. lia.
Qed.

(** X11.  Whatever the schedule, the calls and the answers of the servers:
    a session dictionary keeps the [clientId] and [clientSecret] it was
    created with.  The refresh, also when it stops half-way, only ever
    assigns [accessToken], [refreshToken] and [expiresAt]. *)
Theorem client_credentials_never_change (e : env) (schedule : list nat)
    (calls : list tool_call) (w : world) (r : ref) (d : session) :
  store_wf (st w) ->
  heap (st w) !! r = Some d ->
  let final := snd (interleave e schedule (map (fun c => Ready (handle c)) calls, w)) in
  exists d', heap (st final) !! r = Some d'
             /\ clientId d' = clientId d /\ clientSecret d' = clientSecret d.
Proof.
  intros Hwf Hd final.
  destruct (interleave_tame e schedule (map (fun c => Ready (handle c)) calls, w) Hwf
              (handlers_tame _ calls)) as (_ & (_ & _ & _ & Hdicts) & _).
  exact (Hdicts r d Hd).
Qed.

Lemma client_credentials_never_change_witness :
  let calls := [CallGetUserInfo ALICE_ID; CallGetUserInfo ALICE_ID] in
  let final := snd (interleave RACE [0; 1; 0; 1; 0; 1]%nat
                      (map (fun c => Ready (handle c)) calls, ONE_SESSION)) in
  exists d', heap (st final) !! 0%nat = Some d'
             /\ clientId d' = JStr "idA" /\ clientSecret d' = JStr "secretA".
Proof.
  intros calls final.
  apply (client_credentials_never_change RACE [0; 1; 0; 1; 0; 1]%nat calls ONE_SESSION
           0%nat ALICE one_session_wf eq_refl).
Defined.

(** ** How many token calls the handlers can post, in any interleaving *)

Lemma pam_mono {A : Type} (n : nat) (t : task A) :
  posts_at_most n t -> forall m, (n <= m)%nat -> posts_at_most m t.
Proof.
  induction 1 as [n a|n x|n r k Hr _ IH|n r k Hr _ IH|n k _ IH|n j k _ IH|n sid k _ IH
                 |n sid r k _ IH|n s k _ IH|n r k _ IH|n r f k _ IH];
    intros m Hm.
  - constructor.
  - constructor.
  - destruct m as [|m]; [lia|].
    apply pam_Await_token; [exact Hr|]. intros x. apply IH. lia.
  - apply pam_Await_other; [exact Hr|]. intros x. now apply IH.
  - constructor. intros x. now apply IH.
  - constructor. intros x. now apply IH.
  - constructor. intros x. now apply IH.
  - constructor. now apply IH.
  - constructor. intros x. now apply IH.
  - constructor. intros x. now apply IH.
  - constructor. now apply IH.
Qed.

Lemma pam_bind {A B : Type} (a b : nat) (m : task A) (f : A -> task B) :
  posts_at_most a m -> (forall x, posts_at_most b (f x)) ->
  posts_at_most (a + b) (bind m f).
Proof.
  induction 1 as [n a|n x|n r k Hr _ IH|n r k Hr _ IH|n k _ IH|n j k _ IH|n sid k _ IH
                 |n sid r k _ IH|n s k _ IH|n r k _ IH|n r g k _ IH];
    intros Hf; cbn [bind].
  - apply (pam_mono b); [apply Hf|lia].
  - constructor.
  - change (S n + b)%nat with (S (n + b)).
    apply pam_Await_token; [exact Hr|]. intros x. now apply IH.
  - apply pam_Await_other; [exact Hr|]. intros x. now apply IH.
  - constructor. intros x. now apply IH.
  - constructor. intros x. now apply IH.
  - constructor. intros x. now apply IH.
  - constructor. now apply IH.
  - constructor. intros x. now apply IH.
  - constructor. intros x. now apply IH.
  - constructor. now apply IH.
Qed.

Lemma pam_try {A : Type} (n : nat) (x : exn + A) : posts_at_most n (try x).
Proof. destruct x; constructor. Qed.

Lemma pam_response_json (n : nat) (body : option json) :
  posts_at_most n (response_json body).
Proof. destruct body; constructor. Qed.

Lemma pam_token_payload (n : nat) (data : json) : posts_at_most n (token_payload data).
Proof.
  unfold token_payload.
  repeat (apply (pam_bind 0 n); [apply pam_try|intros ?]). constructor.
Qed.

Lemma pam_rd_api_request (n : nat) (endpoint : string) (access_token : json)
    (method : string) (body : option form) :
  posts_at_most n (rd_api_request endpoint access_token method body).
Proof.
  unfold rd_api_request.
  apply pam_Await_other; [apply api_call_not_token_call|].
  intros [status_code answer|]; cbn [api_result]; [|constructor].
  destruct (status_code =? 204)%Z; [constructor|].
  apply (pam_bind 0 n); [apply pam_response_json|intros data].
  destruct (400 <=? status_code)%Z; [|constructor].
  repeat (apply (pam_bind 0 n); [apply pam_try|intros ?]). constructor.
Qed.

Lemma pam_refresh_access_token (client_id client_secret refresh_token : json) :
  posts_at_most 1 (refresh_access_token client_id client_secret refresh_token).
Proof.
  unfold refresh_access_token.
  apply pam_Await_token; [reflexivity|].
  intros [status_code answer|]; [|constructor].
  apply (pam_bind 0 0); [apply pam_response_json|intros data].
  apply pam_token_payload.
Qed.

Lemma pam_get_user_info (session_id : string) :
  posts_at_most 1 (get_user_info session_id).
Proof.
  unfold get_user_info. constructor. intros [r|]; [|constructor].
  apply (pam_bind 1 0).
  - constructor. intros now. constructor. intros d.
    destruct (float_ge now (expiresAt d)); [|constructor].
    unfold refresh_session.
    apply (pam_bind 1 0); [apply pam_refresh_access_token|intros new_tokens].
    constructor. constructor. constructor. intros now'.
    apply (pam_bind 0 0); [apply pam_try|intros expires_at].
    constructor. constructor. constructor.
  - intros _. constructor. intros d.
    apply (pam_bind 0 0); [apply pam_rd_api_request|intros; constructor].
Qed.

Lemma pam_oauth_check (device_code : string) : posts_at_most 1 (oauth_check device_code).
Proof.
  unfold oauth_check.
  apply (pam_bind 0 1).
  { unfold get_device_credentials.
    apply pam_Await_other; [reflexivity|].
    intros [status_code answer|]; [|constructor].
    destruct (negb (status_code =? 200)%Z); [constructor|].
    apply (pam_bind 0 0); [apply pam_response_json|intros data].
    repeat (apply (pam_bind 0 0); [apply pam_try|intros ?]). constructor. }
  intros [credentials|]; [|constructor].
  apply (pam_bind 1 0).
  { unfold get_access_token.
    apply pam_Await_token; [reflexivity|].
    intros [status_code answer|]; [|constructor].
    destruct (negb (status_code =? 200)%Z); [constructor|].
    apply (pam_bind 0 0); [apply pam_response_json|intros data].
    apply (pam_bind 0 0); [apply pam_token_payload|intros; constructor]. }
  intros [toks|]; [|constructor].
  constructor. intros now.
  apply (pam_bind 0 0); [apply pam_try|intros seconds].
  constructor. intros rnd. constructor. intros now'.
  apply (pam_bind 0 0); [apply pam_try|intros expires_at].
  constructor. intros r. constructor. constructor.
Qed.

Lemma pam_oauth_start : posts_at_most 0 oauth_start.
Proof.
  unfold oauth_start, initiate_device_auth.
  apply (pam_bind 0 0); [|intros; constructor].
  apply pam_Await_other; [reflexivity|].
  intros [status_code answer|]; [|constructor].
  apply (pam_bind 0 0); [apply pam_response_json|intros data].
  repeat (apply (pam_bind 0 0); [apply pam_try|intros ?]). constructor.
Qed.

Lemma pam_plain_tools (session_id link magnet : string) (password filter : option string) :
  posts_at_most 0 (unrestrict_link session_id link password)
  /\ posts_at_most 0 (list_torrents session_id filter)
  /\ posts_at_most 0 (add_magnet session_id magnet).
Proof.
  repeat split;
    cbv beta delta [unrestrict_link list_torrents add_magnet];
    apply pam_TokensGet; intros [r|]; try apply pam_Raise;
    apply pam_Fetch; intros d;
    (apply (pam_bind 0 0); [apply pam_rd_api_request|intros; apply pam_Ret]).
Qed.

Lemma pam_handle (c : tool_call) : posts_at_most (token_budget c) (handle c).
Proof.
  destruct c as [|device_code|session_id|session_id link password|session_id filter
                |session_id magnet]; cbn [handle token_budget].
  - apply (pam_bind 0 0); [apply pam_oauth_start|intros; constructor].
  - apply (pam_bind 1 0); [apply pam_oauth_check|intros; constructor].
  - apply (pam_bind 1 0); [apply pam_get_user_info|intros; constructor].
  - apply (pam_bind 0 0); [|intros; constructor].
    apply (pam_plain_tools session_id link "" password None).
  - apply (pam_bind 0 0); [|intros; constructor].
    apply (pam_plain_tools session_id "" "" None filter).
  - apply (pam_bind 0 0); [|intros; constructor].
    apply (pam_plain_tools session_id "" magnet None None).
Qed.

Lemma refresh_calls_snoc (rs : list request) (r : request) :
  refresh_calls (rs ++ [r])
  = (refresh_calls rs + if is_token_call r then 1 else 0)%nat.
Proof.
  rewrite refresh_calls_app. unfold refresh_calls at 2. cbn [List.filter].
  destruct (is_token_call r); reflexivity.
Qed.

Lemma advance_posts {A : Type} (e : env) (n : nat) (t : task A) :
  posts_at_most n t ->
  forall w, exists n',
    thread_posts_at_most n' (fst (advance e t w))
    /\ (refresh_calls (sent (snd (advance e t w))) + n'
        <= refresh_calls (sent w) + n)%nat.
Proof.
  induction 1 as [n a|n x|n r k Hr Hk _|n r k Hr Hk _|n k _ IH|n j k _ IH|n sid k _ IH
                 |n sid r k _ IH|n s k _ IH|n r k _ IH|n r f k _ IH];
    intros w; cbn [advance].
  - exists 0%nat. cbn [fst snd thread_posts_at_most]. split; [exact I|lia].
  - exists 0%nat. cbn [fst snd thread_posts_at_most]. split; [exact I|lia].
  - exists n. cbn [fst snd thread_posts_at_most send sent]. split; [exact Hk|].
    rewrite refresh_calls_snoc, Hr. lia.
  - exists n. cbn [fst snd thread_posts_at_most send sent]. split; [exact Hk|].
    rewrite refresh_calls_snoc, Hr. lia.
  - exact (IH (clock e (ticks w)) (tick w)).
  - exact (IH (urandom e j w) (draw j w)).
  - exact (IH (user_tokens (st w) !! sid) w).
  - exact (IH (with_store _ w)).
  - exact (IH (length (heap (st w))) (with_store _ w)).
  - destruct (heap (st w) !! r) as [s|].
    + exact (IH s w).
    + exists 0%nat. cbn [fst snd thread_posts_at_most]. split; [exact I|lia].
  - destruct (heap (st w) !! r) as [s|].
    + exact (IH (with_store _ w)).
    + exists 0%nat. cbn [fst snd thread_posts_at_most]. split; [exact I|lia].
Qed.

Lemma resume_posts {A : Type} (e : env) (n : nat) (th : thread A) (w : world) :
  thread_posts_at_most n th ->
  exists n',
    thread_posts_at_most n' (fst (resume e th w))
    /\ (refresh_calls (sent (snd (resume e th w))) + n'
        <= refresh_calls (sent w) + n)%nat.
Proof.
  destruct th as [t|j r k|o]; cbn [resume thread_posts_at_most]; intros H.
  - exact (advance_posts e n t H w).
  - exact (advance_posts e n _ (H (server e j r)) w).
  - exists 0%nat. cbn [fst snd thread_posts_at_most]. split; [exact I|lia].
Qed.

Lemma sum_list_insert (bs : list nat) (i b b' : nat) :
  bs !! i = Some b ->
  (sum_list (<[i := b']> bs) + b = sum_list bs + b')%nat.
Proof.
  revert i. induction bs as [|x bs IH]; intros [|i] Hb; try discriminate.
  - injection Hb as ->. simpl. lia.
  - simpl in *. specialize (IH i Hb). lia.
Qed.

(** Under any schedule the requests to the token endpoint stay within what
    the handlers have left of their budgets. *)
Lemma interleave_posts {A : Type} (e : env) (schedule : list nat)
    (pw : list (thread A) * world) (bs : list nat) :
  Forall2 thread_posts_at_most bs (fst pw) ->
  (refresh_calls (sent (snd (interleave e schedule pw)))
   <= refresh_calls (sent (snd pw)) + sum_list bs)%nat.
Proof.
  revert pw bs. induction schedule as [|i schedule IH]; intros pw bs Hpool.
  - cbn [interleave fold_left]. lia.
  - change (interleave e (i :: schedule) pw) with (interleave e schedule (turn e i pw)).
    unfold turn. destruct (fst pw !! i) as [th|] eqn:Hth.
    + destruct (Forall2_lookup_r _ _ _ _ _ Hpool Hth) as (b & Hb & Hbudget).
      destruct (resume_posts e b th (snd pw) Hbudget) as (b' & Hbudget' & Hle).
      destruct (resume e th (snd pw)) as [th' w'] eqn:Hres. cbn [fst snd] in *.
      specialize (IH (<[i := th']> (fst pw), w') (<[i := b']> bs)
                    (Forall2_insert _ _ _ _ _ _ Hpool Hbudget')).
      cbn [fst snd] in IH.
      pose proof (sum_list_insert bs i b b' Hb). lia.
    + exact (IH pw bs Hpool).
Qed.

(** X12.  Whatever the schedule and the answers: each [get_user_info] and
    each [oauth_check] posts at most one request to the token endpoint, and
    the other tools post none.  So [n] concurrent requests for an expired
    session cause at most [n] refresh calls. *)
Theorem token_calls_bounded (e : env) (schedule : list nat) (calls : list tool_call)
    (w : world) (session_id : string) (n : nat) :
  let final := snd (interleave e schedule (map (fun c => Ready (handle c)) calls, w)) in
  let requesters := repeat (CallGetUserInfo session_id) n in
  let final' := snd (interleave e schedule (map (fun c => Ready (handle c)) requesters, w)) in
  (refresh_calls (sent final)
   <= refresh_calls (sent w) + sum_list (map token_budget calls))%nat
  /\ (refresh_calls (sent final') <= refresh_calls (sent w) + n)%nat.
Proof.
  intros final requesters final'.
  assert (Hbound : forall cs,
             (refresh_calls
                (sent (snd (interleave e schedule (map (fun c => Ready (handle c)) cs, w))))
              <= refresh_calls (sent w) + sum_list (map token_budget cs))%nat).
  { intros cs.
    apply (interleave_posts e schedule (map (fun c => Ready (handle c)) cs, w)).
    cbn [fst]. induction cs as [|c cs IH]; cbn [map]; constructor.
    - apply pam_handle.
    - exact IH. }
  split; [apply Hbound|].
  assert (Hsum : sum_list (map token_budget requesters) = n).
  { unfold requesters. clear. induction n as [|n IH]; [reflexivity|].
    cbn [repeat map sum_list token_budget]. now rewrite IH. }
  pose proof (Hbound requesters) as H. rewrite Hsum in H. exact H.
Qed.

(** ** Where sessions come from *)

Lemma quiet_bind {A B : Type} (T : gmap string ref) (m : task A) (f : A -> task B) :
  quiet T m -> (forall a, quiet T (f a)) -> quiet T (bind m f).
Proof.
  induction 1 as [a|x|r k _ IH|k _ IH|n k _ IH|sid k _ IH|sid r k Hr _ IH|s k _ IH
                 |r k _ IH|r g k _ IH];
    intros Hf; cbn [bind].
  - apply Hf.
  - constructor.
  - constructor. intros x. now apply IH.
  - constructor. intros x. now apply IH.
  - constructor. intros x. now apply IH.
  - constructor. now apply IH.
  - constructor; [exact Hr|now apply IH].
  - constructor. intros x. now apply IH.
  - constructor. intros x. now apply IH.
  - constructor. now apply IH.
Qed.

Lemma quiet_try {A : Type} (T : gmap string ref) (x : exn + A) : quiet T (try x).
Proof. destruct x; constructor. Qed.

Lemma quiet_response_json (T : gmap string ref) (body : option json) :
  quiet T (response_json body).
Proof. destruct body; constructor. Qed.

Lemma quiet_rd_api_request (T : gmap string ref) (endpoint : string)
    (access_token : json) (method : string) (body : option form) :
  quiet T (rd_api_request endpoint access_token method body).
Proof.
  unfold rd_api_request. constructor.
  intros [status_code answer|]; cbn [api_result]; [|constructor].
  destruct (status_code =? 204)%Z; [constructor|].
  apply quiet_bind; [apply quiet_response_json|intros data].
  destruct (400 <=? status_code)%Z; [|constructor].
  repeat (apply quiet_bind; [apply quiet_try|intros ?]). constructor.
Qed.

Lemma quiet_refresh_access_token (T : gmap string ref)
    (client_id client_secret refresh_token : json) :
  quiet T (refresh_access_token client_id client_secret refresh_token).
Proof.
  unfold refresh_access_token. constructor.
  intros [status_code answer|]; [|constructor].
  apply quiet_bind; [apply quiet_response_json|intros data].
  unfold token_payload.
  repeat (apply quiet_bind; [apply quiet_try|intros ?]). constructor.
Qed.

(** Every tool but [oauth_check] is quiet, whatever [user_tokens] holds. *)
Lemma quiet_handle (T : gmap string ref) (c : tool_call) :
  is_oauth_check c = false -> quiet T (handle c).
Proof.
  destruct c as [|device_code|session_id|session_id link password|session_id filter
                |session_id magnet]; cbn [is_oauth_check handle]; intros Hc;
    try discriminate Hc; (apply quiet_bind; [|intros; constructor]).
  - unfold oauth_start, initiate_device_auth.
    apply quiet_bind; [|intros; constructor].
    constructor. intros [status_code answer|]; [|constructor].
    apply quiet_bind; [apply quiet_response_json|intros data].
    repeat (apply quiet_bind; [apply quiet_try|intros ?]). constructor.
  - unfold get_user_info. constructor.
    destruct (T !! session_id) as [r|] eqn:Hr; [|constructor].
    apply quiet_bind.
    + constructor. intros now. constructor. intros d.
      destruct (float_ge now (expiresAt d)); [|constructor].
      unfold refresh_session.
      apply quiet_bind; [apply quiet_refresh_access_token|intros new_tokens].
      constructor. constructor. constructor. intros now'.
      apply quiet_bind; [apply quiet_try|intros expires_at].
      constructor. constructor; [exact Hr|]. constructor.
    + intros _. constructor. intros d.
      apply quiet_bind; [apply quiet_rd_api_request|intros; constructor].
  - unfold unrestrict_link. constructor.
    destruct (T !! session_id) as [r|]; [|constructor].
    constructor. intros d.
    apply quiet_bind; [apply quiet_rd_api_request|intros; constructor].
  - unfold list_torrents. constructor.
    destruct (T !! session_id) as [r|]; [|constructor].
    constructor. intros d.
    apply quiet_bind; [apply quiet_rd_api_request|intros; constructor].
  - unfold add_magnet. constructor.
    destruct (T !! session_id) as [r|]; [|constructor].
    constructor. intros d.
    apply quiet_bind; [apply quiet_rd_api_request|intros; constructor].
Qed.

Lemma advance_quiet {A : Type} (e : env) (T : gmap string ref) (t : task A) :
  quiet T t ->
  forall w, user_tokens (st w) = T ->
  user_tokens (st (snd (advance e t w))) = T
  /\ thread_quiet T (fst (advance e t w)).
Proof.
  induction 1 as [a|x|r k Hk _|k _ IH|n k _ IH|sid k _ IH|sid r k Hr _ IH|s k _ IH
                 |r k _ IH|r g k _ IH];
    intros w Hw; cbn [advance].
  - cbn [fst snd thread_quiet]. auto.
  - cbn [fst snd thread_quiet]. auto.
  - cbn [fst snd thread_quiet]. auto.
  - exact (IH (clock e (ticks w)) (tick w) Hw).
  - exact (IH (urandom e n w) (draw n w) Hw).
  - rewrite Hw. exact (IH w Hw).
  - apply IH. cbn [with_store st user_tokens]. rewrite Hw. now apply insert_id.
  - apply IH. exact Hw.
  - destruct (heap (st w) !! r) as [s|].
    + exact (IH s w Hw).
    + cbn [fst snd thread_quiet]. auto.
  - destruct (heap (st w) !! r) as [s|].
    + apply IH. exact Hw.
    + cbn [fst snd thread_quiet]. auto.
Qed.

Lemma interleave_quiet {A : Type} (e : env) (T : gmap string ref)
    (schedule : list nat) (pw : list (thread A) * world) :
  user_tokens (st (snd pw)) = T ->
  Forall (thread_quiet T) (fst pw) ->
  user_tokens (st (snd (interleave e schedule pw))) = T.
Proof.
  revert pw. induction schedule as [|i schedule IH]; intros pw Hw Hpool; [exact Hw|].
  change (interleave e (i :: schedule) pw) with (interleave e schedule (turn e i pw)).
  apply IH; unfold turn; destruct (fst pw !! i) as [th|] eqn:Hth; try assumption.
  - pose proof (Forall_lookup_1 _ _ _ _ Hpool Hth) as Hq.
    destruct th as [t|j r k|o]; cbn [resume thread_quiet] in *.
    + destruct (advance_quiet e T t Hq (snd pw) Hw) as [H _].
      now destruct (advance e t (snd pw)).
    + destruct (advance_quiet e T _ (Hq (server e j r)) (snd pw) Hw) as [H _].
      now destruct (advance e (k (server e j r)) (snd pw)).
    + exact Hw.
  - pose proof (Forall_lookup_1 _ _ _ _ Hpool Hth) as Hq.
    assert (Hth' : thread_quiet T (fst (resume e th (snd pw)))).
    { destruct th as [t|j r k|o]; cbn [resume thread_quiet] in *.
      - exact (proj2 (advance_quiet e T t Hq (snd pw) Hw)).
      - exact (proj2 (advance_quiet e T _ (Hq (server e j r)) (snd pw) Hw)).
      - exact I. }
    destruct (resume e th (snd pw)) as [th' w']. cbn [fst snd] in *.
    now apply Forall_insert.
Qed.

(** X13.  Sessions come from [oauth_check] alone.  Whatever the schedule
    and the answers: when none of the calls is an [oauth_check],
    [user_tokens] is at the end exactly what it was, and the health check
    reports the same number of sessions. *)
Theorem only_oauth_check_adds_sessions (e : env) (schedule : list nat)
    (calls : list tool_call) (w : world) :
  forallb (fun c => negb (is_oauth_check c)) calls = true ->
  let final := snd (interleave e schedule (map (fun c => Ready (handle c)) calls, w)) in
  user_tokens (st final) = user_tokens (st w)
  /\ activeSessions (st final) = activeSessions (st w).
Proof.
  intros Hcalls final.
  assert (Htok : user_tokens (st final) = user_tokens (st w)).
  { apply (interleave_quiet e (user_tokens (st w)) schedule
             (map (fun c => Ready (handle c)) calls, w)); [reflexivity|].
    cbn [fst]. apply Forall_forall. intros th Hin.
    apply list_elem_of_In, in_map_iff in Hin. destruct Hin as (c & <- & Hc).
    cbn [thread_quiet]. apply quiet_handle.
    rewrite forallb_forall in Hcalls. specialize (Hcalls c Hc).
    now destruct (is_oauth_check c). }
  split; [exact Htok|]. unfold activeSessions. now rewrite Htok.
Qed.

Lemma only_oauth_check_adds_sessions_witness :
  let calls := [CallGetUserInfo ALICE_ID; CallOauthStart;
                CallUnrestrictLink ALICE_ID "https://host.example/file" None;
                CallGetUserInfo ALICE_ID] in
  let final := snd (interleave RACE [0; 3; 1; 2; 3; 0; 1; 0; 3; 2]%nat
                      (map (fun c => Ready (handle c)) calls, ONE_SESSION)) in
  activeSessions (st final) = activeSessions (st ONE_SESSION).
Proof.
  intros calls final.
  apply (only_oauth_check_adds_sessions RACE [0; 3; 1; 2; 3; 0; 1; 0; 3; 2]%nat calls
           ONE_SESSION).
  reflexivity.
Defined.

(** ** The refresh of [get_user_info], seen from the event loop *)

(** X14.  A [get_user_info] handler for an expired session parks at its
    refresh call.  When the event loop hands it a well-formed answer, the
    handler, in that same turn and before its next [await], assigns
    [accessToken], [refreshToken] and [expiresAt] in the dictionary it
    looked up before the refresh (as that dictionary is by then), binds the
    session id to that dictionary again whatever [user_tokens] holds by
    then, and parks at the [/user] call with the new access token. *)
Theorem refresh_turn_is_atomic (e : env) (w w1 : world) (session_id : string)
    (r : ref) (d d1 : session) (status_code : Z) (data a rt x : json)
    (expires_at : float) :
  user_tokens (st w) !! session_id = Some r ->
  heap (st w) !! r = Some d ->
  float_ge (clock e (ticks w)) (expiresAt d) = true ->
  let refresh := token_call (clientId d) (clientSecret d) (refreshToken d) in
  server e (length (sent w)) refresh = HttpResponse status_code (Some data) ->
  getitem data "access_token" = inr a ->
  getitem data "refresh_token" = inr rt ->
  getitem data "expires_in" = inr x ->
  heap (st w1) !! r = Some d1 ->
  float_add (clock e (ticks w1)) x = inr expires_at ->
  let parked := fst (advance e (get_user_info session_id) w) in
  let call := api_call "/user" a "GET" None in
  snd (advance e (get_user_info session_id) w) = send refresh (tick w)
  /\ exists k,
       resume e parked w1
       = (Parked (length (sent w1)) call k,
          World (Store (<[r := Session a rt expires_at (clientId d1) (clientSecret d1)]>
                         (heap (st w1)))
                       (<[session_id := r]> (user_tokens (st w1))))
                (S (ticks w1)) (drawn w1) (sent w1 ++ [call])).
Proof.
  intros Hsid Href Hnow refresh Hres Ha Hrt Hx Href1 Hadd parked call.
  destruct (refresh_assignments_in_one_turn e w session_id r d Hsid Href Hnow)
    as (k & Hadv & Hk).
  fold refresh in Hadv. unfold parked. rewrite Hadv. cbn [fst snd resume].
  split; [reflexivity|]. rewrite Hres.
  exact (Hk w1 d1 status_code data a rt x expires_at Href1 Ha Hrt Hx Hadd).
Qed.

(** While the handler waits, another handler has already refreshed the
    same dictionary. *)
Lemma refresh_turn_is_atomic_witness :
  let w1 := World (Store [Session (JStr "T3") (JStr "R3") (float_of_Z 5000)
                           (JStr "idA") (JStr "secretA")]
                         {[ ALICE_ID := 0%nat ]})
              7 0 [token_call (JStr "idA") (JStr "secretA") (JStr "R1")] in
  let parked := fst (advance RACE (get_user_info ALICE_ID) ONE_SESSION) in
  exists k,
    resume RACE parked w1
    = (Parked 1 (api_call "/user" (JStr "T2") "GET" None) k,
       World (Store [Session (JStr "T2") (JStr "R2") (float_of_Z 5607)
                       (JStr "idA") (JStr "secretA")]
                    (<[ALICE_ID := 0%nat]> {[ ALICE_ID := 0%nat ]}))
             8 0 [token_call (JStr "idA") (JStr "secretA") (JStr "R1");
                  api_call "/user" (JStr "T2") "GET" None]).
Proof.
  intros w1 parked.
  apply (refresh_turn_is_atomic RACE ONE_SESSION w1 ALICE_ID 0%nat ALICE
           (Session (JStr "T3") (JStr "R3") (float_of_Z 5000) (JStr "idA") (JStr "secretA"))
           200
           (JObj [("access_token", JStr "T2"); ("refresh_token", JStr "R2");
                  ("expires_in", JInt 3600); ("token_type", JStr "Bearer")])
           (JStr "T2") (JStr "R2") (JInt 3600) (float_of_Z 5607));
    reflexivity.
Defined.

(** X15.  A refresh that fails is not remembered.  When the session has
    expired and the token endpoint does not answer, or answers with a body
    that is not JSON, or with JSON that lacks one of [access_token],
    [refresh_token] and [expires_in], [get_user_info] raises, the [/user]
    call is not sent, and the token store is exactly as before: the session
    stays, still expired, and the next call posts the same refresh call. *)
Theorem failed_refresh_keeps_session (e : env) (w : world) (session_id : string)
    (r : ref) (d : session) :
  user_tokens (st w) !! session_id = Some r ->
  heap (st w) !! r = Some d ->
  float_ge (clock e (ticks w)) (expiresAt d) = true ->
  let refresh := token_call (clientId d) (clientSecret d) (refreshToken d) in
  (server e (length (sent w)) refresh = HttpError
   \/ (exists status_code, server e (length (sent w)) refresh = HttpResponse status_code None)
   \/ (exists status_code data,
         server e (length (sent w)) refresh = HttpResponse status_code (Some data)
         /\ ((exists x, getitem data "access_token" = inl x)
             \/ (exists x, getitem data "refresh_token" = inl x)
             \/ (exists x, getitem data "expires_in" = inl x)))) ->
  (exists x, run e (get_user_info session_id) w = (Raised x, send refresh (tick w)))
  /\ st (send refresh (tick w)) = st w
  /\ sent (send refresh (tick w)) = sent w ++ [refresh].
Proof.
  intros Hsid Href Hnow refresh Hfail.
  split; [|split; reflexivity].
  destruct Hfail as [Hres|[(status_code & Hres)|(status_code & data & Hres & Hbad)]].
  - unfold get_user_info. cbn [run]. rewrite Hsid.
    rewrite run_bind. cbn [run].
    change (st (tick w)) with (st w). rewrite Href, Hnow.
    unfold refresh_session, refresh_access_token. cbn [bind run]. fold refresh.
    change (sent (tick w)) with (sent w). rewrite Hres.
    eexists. reflexivity.
  - apply (refresh_without_tokens_keeps_store e w session_id r d status_code None
             Hsid Href Hnow Hres).
    intros data Hdata. discriminate Hdata.
  - apply (refresh_without_tokens_keeps_store e w session_id r d status_code (Some data)
             Hsid Href Hnow Hres).
    intros data' [= <-]. exact Hbad.
Qed.

Lemma failed_refresh_keeps_session_witness :
  exists x, run REJECTING (get_user_info ALICE_ID) ONE_SESSION
            = (Raised x,
               send (token_call (JStr "idA") (JStr "secretA") (JStr "R1"))
                 (tick ONE_SESSION)).
Proof.
  apply (failed_refresh_keeps_session REJECTING ONE_SESSION ALICE_ID 0%nat ALICE).
  - reflexivity.
  - reflexivity.
  - reflexivity.
  - right. right. exists 401, (JObj [("error", JStr "bad_token"); ("error_code", JInt 8)]).
    split; [reflexivity|]. left. eexists. reflexivity.
Defined.

(** ** [oauth_check] on an id that is taken, and on a malformed poll *)

(** X16.  [oauth_check] does not look whether the id it made is taken.
    When it is, the id is bound to the new record, the number of sessions
    stays the same, every other session id keeps its record, and the
    dictionary the id was bound to is still what it was, by now without
    that session id. *)
Theorem taken_session_id_is_overwritten (e : env) (w : world) (device_code : string)
    (creds toks : json) (client_id client_secret a rt x : json) (seconds : Z)
    (expires_at : float) (r0 : ref) :
  store_wf (st w) ->
  server e (length (sent w)) (credentials_call device_code)
    = HttpResponse 200 (Some creds) ->
  getitem creds "client_id" = inr client_id ->
  getitem creds "client_secret" = inr client_secret ->
  server e (S (length (sent w))) (token_call client_id client_secret (JStr device_code))
    = HttpResponse 200 (Some toks) ->
  getitem toks "access_token" = inr a ->
  getitem toks "refresh_token" = inr rt ->
  getitem toks "expires_in" = inr x ->
  py_int (clock e (ticks w)) = inr seconds ->
  float_add (clock e (S (ticks w))) x = inr expires_at ->
  let session_id := make_session_id seconds (urandom e 4 w) in
  user_tokens (st w) !! session_id = Some r0 ->
  let final := snd (run e (oauth_check device_code) w) in
  record_of (st final) session_id
    = Some (Session a rt expires_at client_id client_secret)
  /\ activeSessions (st final) = activeSessions (st w)
  /\ (forall other, other <> session_id ->
        record_of (st final) other = record_of (st w) other)
  /\ heap (st final) !! r0 = heap (st w) !! r0
  /\ user_tokens (st final) !! session_id = Some (length (heap (st w))).
Proof.
  intros Hwf Hpoll Hid Hsecret Htok Ha Hrt Hx Hint Hadd session_id Htaken final.
  unfold final.
  rewrite (run_oauth_check e w device_code creds toks client_id client_secret a rt x
             seconds expires_at Hpoll Hid Hsecret Htok Ha Hrt Hx Hint Hadd).
  fold session_id. cbn [snd st]. unfold record_of, activeSessions.
  cbn [user_tokens heap]. rewrite lookup_insert_eq.
  repeat split.
  - rewrite lookup_app_r by lia. now rewrite Nat.sub_diag.
  - apply map_size_insert_Some. eauto.
  - intros other Hother. rewrite lookup_insert_ne by congruence.
    destruct (user_tokens (st w) !! other) as [r|] eqn:Hr; [|reflexivity].
    apply lookup_app_l. exact (Hwf other r Hr).
  - apply lookup_app_l. exact (Hwf session_id r0 Htaken).
  - apply lookup_insert_eq.
Qed.

Lemma taken_session_id_is_overwritten_witness :
  let final := snd (run COLLIDING (oauth_check "dcB") ONE_SESSION) in
  record_of (st ONE_SESSION) ALICE_ID = Some ALICE
  /\ record_of (st final) ALICE_ID
     = Some (Session (JStr "A1") (JStr "R1") (dyadic 7203 (-1))
               (JStr "idA") (JStr "secretA")).
Proof.
  intros final. split; [reflexivity|].
  apply (taken_session_id_is_overwritten COLLIDING ONE_SESSION "dcB"
           (JObj [("client_id", JStr "idA"); ("client_secret", JStr "secretA")])
           (JObj [("access_token", JStr "A1"); ("refresh_token", JStr "R1");
                  ("expires_in", JInt 3600); ("token_type", JStr "Bearer")])
           (JStr "idA") (JStr "secretA") (JStr "A1") (JStr "R1") (JInt 3600)
           1 (dyadic 7203 (-1)) 0%nat one_session_wf);
    reflexivity.
Defined.

(** X17.  A poll answered with status 200 is taken for the approval
    whatever its body.  When the body is not JSON, or lacks [client_id] or
    [client_secret], [oauth_check] raises instead of reporting a pending
    authorization; the token exchange is not attempted and no session is
    stored. *)
Theorem check_auth_malformed_poll (e : env) (w : world) (device_code : string)
    (body : option json) :
  server e (length (sent w)) (credentials_call device_code) = HttpResponse 200 body ->
  (forall data, body = Some data ->
     (exists x, getitem data "client_id" = inl x)
     \/ (exists x, getitem data "client_secret" = inl x)) ->
  exists x, run e (oauth_check device_code) w
            = (Raised x, send (credentials_call device_code) w).
Proof.
  intros Hpoll Hbad.
  unfold oauth_check, get_device_credentials. cbn [bind run]. rewrite Hpoll.
  cbn [Z.eqb Pos.eqb negb]. destruct body as [data|]; [|eexists; reflexivity].
  cbn [response_json bind].
  destruct (Hbad data eq_refl) as [[x Hx]|[x Hx]].
  - rewrite Hx. eexists. reflexivity.
  - destruct (getitem data "client_id"); [eexists; reflexivity|].
    cbn [try bind]. rewrite Hx. eexists. reflexivity.
Qed.

Lemma check_auth_malformed_poll_witness :
  let e := Env (fun _ => float_of_Z 0) (fun _ => x00)
             (fun _ _ => HttpResponse 200 (Some (JObj [("client_id", JStr "idA")]))) in
  exists x, run e (oauth_check "dcA") START
            = (Raised x, send (credentials_call "dcA") START).
Proof.
  intros e.
  apply (check_auth_malformed_poll e START "dcA" (Some (JObj [("client_id", JStr "idA")])));
    [reflexivity|].
  intros data [= <-]. right. eexists. reflexivity.
Defined.

(** ** From authorization to the first API call *)

(** X18.  The session id that [oauth_check] returns works at once.  After
    a completed check, [unrestrict_link], [list_torrents] and [add_magnet]
    called with that id send the access token of the exchange, and so does
    [get_user_info], without a refresh call, as long as the clock reads less
    than the [expiresAt] just stored. *)
Theorem authorized_session_is_usable (e : env) (w : world) (device_code : string)
    (creds toks : json) (client_id client_secret a rt x : json) (seconds : Z)
    (expires_at : float) (link magnet : string) (password filter : option string) :
  server e (length (sent w)) (credentials_call device_code)
    = HttpResponse 200 (Some creds) ->
  getitem creds "client_id" = inr client_id ->
  getitem creds "client_secret" = inr client_secret ->
  server e (S (length (sent w))) (token_call client_id client_secret (JStr device_code))
    = HttpResponse 200 (Some toks) ->
  getitem toks "access_token" = inr a ->
  getitem toks "refresh_token" = inr rt ->
  getitem toks "expires_in" = inr x ->
  py_int (clock e (ticks w)) = inr seconds ->
  float_add (clock e (S (ticks w))) x = inr expires_at ->
  SFltb (clock e (S (S (ticks w)))) expires_at = true ->
  let session_id := make_session_id seconds (urandom e 4 w) in
  let w' := snd (run e (oauth_check device_code) w) in
  fst (run e (oauth_check device_code) w) = Returned (Dumps (authorized session_id x))
  /\ snd (run e (get_user_info session_id) w')
     = send (api_call "/user" a "GET" None) (tick w')
  /\ snd (run e (unrestrict_link session_id link password) w')
     = send (api_call "/unrestrict/link" a "POST" (Some (unrestrict_body link password))) w'
  /\ snd (run e (list_torrents session_id filter) w')
     = send (api_call (torrents_endpoint filter) a "GET" None) w'
  /\ snd (run e (add_magnet session_id magnet) w')
     = send (api_call "/torrents/addMagnet" a "POST" (Some [("magnet", JStr magnet)])) w'.
Proof.
  intros Hpoll Hid Hsecret Htok Ha Hrt Hx Hint Hadd Hgood session_id w'.
  pose proof (run_oauth_check e w device_code creds toks client_id client_secret a rt x
                seconds expires_at Hpoll Hid Hsecret Htok Ha Hrt Hx Hint Hadd) as Hrun.
  cbv zeta in Hrun. fold session_id in Hrun.
  unfold w'. rewrite Hrun. cbn [fst snd]. split; [reflexivity|].
  set (d := Session a rt expires_at client_id client_secret).
  set (w1 := World _ _ _ _).
  assert (Hsid : user_tokens (st w1) !! session_id = Some (length (heap (st w)))).
  { cbn [w1 st user_tokens]. apply lookup_insert_eq. }
  assert (Href : heap (st w1) !! length (heap (st w)) = Some d).
  { cbn [w1 st heap]. rewrite lookup_app_r by lia. now rewrite Nat.sub_diag. }
  split.
  - pose proof (run_get_user_info_unexpired e w1 session_id _ d Hsid Href Hgood) as H.
    cbv zeta in H. rewrite H. reflexivity.
  - exact (stored_token_sent_unchecked e w1 session_id _ d link magnet password filter
             Hsid Href).
Qed.

Lemma authorized_session_is_usable_witness :
  let w' := snd (run SAME_SECOND (oauth_check "dcA") START) in
  snd (run SAME_SECOND (get_user_info "session_100_00000000") w')
  = send (api_call "/user" (JStr "A1") "GET" None) (tick w').
Proof.
  intros w'.
  pose proof (authorized_session_is_usable SAME_SECOND START "dcA"
                (JObj [("client_id", JStr "idA"); ("client_secret", JStr "secretA")])
                (JObj [("access_token", JStr "A1"); ("refresh_token", JStr "R1");
                       ("expires_in", JInt 3600); ("token_type", JStr "Bearer")])
                (JStr "idA") (JStr "secretA") (JStr "A1") (JStr "R1") (JInt 3600)
                100 (dyadic 7401 (-1)) "" "" None None
                eq_refl eq_refl eq_refl eq_refl eq_refl eq_refl eq_refl eq_refl eq_refl
                eq_refl)
    as (_ & H & _).
  exact H.
Defined.
